(** * custom_base64_hangul: Base64 re-coded as delimited Hangul bit tokens

    A shallow embedding of [custom_base64_hangul.py] and the properties of its
    two functions, [bytes_to_custom_tokens] and [custom_tokens_to_bytes].

    - A Python [str] is a sequence of Unicode code points: [str := list N].
    - A Python [bytes] is a sequence of octets: [list byte].
    - A raised exception is the [Raise] branch of [result].
    - The while loop of the decoder is one function for its body
      ([loop_body]) and its iteration by well-founded recursion on the
      distance of the cursor to the end of the input ([while_loop]).
    - [base64.b64encode] and [base64.b64decode] belong to Python's standard
      library; modules [binascii] and [base64] below model them. *)

From Stdlib Require Import NArith Arith Lia Bool Ascii String List.
From Stdlib.Strings Require Import Byte.
From Equations Require Import Equations.
Import ListNotations.

(** ** Strings, bytes and exceptions *)

Abbreviation char := N (only parsing).
Abbreviation str := (list N) (only parsing).
Abbreviation bytes := (list byte) (only parsing).

(** The code point of an ASCII character and of an ASCII literal. *)
Definition chr (a : ascii) : char := N_of_ascii a.
Definition str_of (s : string) : str := map chr (list_ascii_of_string s).

(** The messages of [binascii.Error], one constructor per raise site of
    [binascii.a2b_base64]. *)
Inductive binascii_error :=
| Leading_padding
| Excess_data_after_padding
| Only_base64_data
| Discontinuous_padding
| One_more_than_multiple_of_4
| Incorrect_padding.

(** The exceptions the two functions and the library calls can raise.
    [binascii.Error] is a subclass of [ValueError]. *)
Inductive exn :=
| ValueError_expected_start (pos : nat)
| ValueError_missing_end (pos : nat)
| ValueError_unknown_char (ch : char)
| ValueError_substring_not_found
| ValueError_not_ascii
| binascii_Error (e : binascii_error)
| IndexError.

Inductive result (A : Type) :=
| Ok (a : A)
| Raise (e : exn).
Arguments Ok {A} a.
Arguments Raise {A} e.

Definition bind {A B} (r : result A) (k : A -> result B) : result B :=
  match r with
  | Ok a => k a
  | Raise e => Raise e
  end.

Notation "x <- r ;; k" := (bind r (fun x => k))
  (at level 61, r at next level, right associativity).



(** ** Python string primitives used by the source *)

(** [a == b] on strings. *)
Fixpoint str_eqb (a b : str) : bool :=
  match a, b with
  | [], [] => true
  | x :: a', y :: b' => N.eqb x y && str_eqb a' b'
  | _, _ => false
  end.

(** [c in s] for a one-character [c], and [c in l] for a list of
    one-character strings. *)
Definition contains (s : str) (c : char) : bool := existsb (N.eqb c) s.

(** [s.index(c)]: the first position of [c], [None] when Python raises
    ValueError. *)
Fixpoint index_from (s : str) (c : char) (k : nat) : option nat :=
  match s with
  | [] => None
  | x :: s' => if N.eqb x c then Some k else index_from s' c (S k)
  end.

Definition index (s : str) (c : char) : option nat := index_from s c 0.

(** [s.find(c, start)]: the first position at or after [start], [None] for
    Python's -1. *)
Definition find (s : str) (c : char) (start : nat) : option nat :=
  index_from (skipn start s) c start.

(** [s[i:j]] for non-negative [i] and [j]. *)
Definition slice (s : str) (i j : nat) : str := firstn (j - i) (skipn i s).

(** [enumerate(l)]. *)
Definition enumerate {A} (l : list A) : list (nat * A) :=
  combine (seq 0 (length l)) l.

(** ** The library: base64 over binascii

    [base64.b64encode] and [base64.b64decode] are Python's, not the
    repository's.  The encoder is modelled by its definition in RFC 4648,
    section 4 (standard alphabet, '=' padding).  The decoder is modelled on
    CPython 3.11, where [b64decode(s, validate=True)] is
    [binascii.a2b_base64(s, strict_mode=True)]: the state machine below follows
    [binascii_a2b_base64_impl] variable by variable. *)

Module binascii.

Definition BASE64_PAD : char := chr "=".

Definition table_b2a_base64 : str :=
  str_of "ABCDEFGHIJKLMNOPQRSTUVWXYZabcdefghijklmnopqrstuvwxyz0123456789+/".

(** [table_b2a_base64[v]]; every use has [v < 64]. *)
Definition b2a (v : N) : char := nth (N.to_nat v) table_b2a_base64 0%N.

(** [table_a2b_base64[c]]: the 6-bit value of a character, [None] where the
    C table holds a value of 64 or more. *)
Definition table_a2b_base64 (c : char) : option N :=
  if ((65 <=? c) && (c <=? 90))%N then Some (c - 65)%N
  else if ((97 <=? c) && (c <=? 122))%N then Some (c - 71)%N
  else if ((48 <=? c) && (c <=? 57))%N then Some (c + 4)%N
  else if (c =? 43)%N then Some 62%N
  else if (c =? 47)%N then Some 63%N
  else None.

(** An [unsigned char] store. *)
Definition uchar (x : N) : byte :=
  match Byte.of_N (x mod 256) with
  | Some b => b
  | None => x00
  end.

(** RFC 4648 section 4: three octets make four characters; one or two
    remaining octets make two or three characters and padding. *)
Fixpoint b2a_base64 (data : bytes) : str :=
  match data with
  | [] => []
  | [a] =>
      let a := Byte.to_N a in
      [b2a (N.shiftr a 2); b2a (N.shiftl (N.land a 3) 4);
       BASE64_PAD; BASE64_PAD]
  | [a; b] =>
      let a := Byte.to_N a in
      let b := Byte.to_N b in
      [b2a (N.shiftr a 2);
       b2a (N.lor (N.shiftl (N.land a 3) 4) (N.shiftr b 4));
       b2a (N.shiftl (N.land b 15) 2); BASE64_PAD]
  | a :: b :: c :: rest =>
      let a := Byte.to_N a in
      let b := Byte.to_N b in
      let c := Byte.to_N c in
      b2a (N.shiftr a 2)
      :: b2a (N.lor (N.shiftl (N.land a 3) 4) (N.shiftr b 4))
      :: b2a (N.lor (N.shiftl (N.land b 15) 2) (N.shiftr c 6))
      :: b2a (N.land c 63)
      :: b2a_base64 rest
  end.

(** The [for] loop of [binascii_a2b_base64_impl] in strict mode, over the
    characters not yet read.  [bin] is what has been written to the output
    buffer. *)
Fixpoint a2b_loop (ascii : str) (quad_pos : nat) (leftchar : N) (pads : nat)
    (padding_started : bool) (bin : bytes) : result bytes :=
  match ascii with
  | [] =>
      match quad_pos with
      | 0 => Ok bin
      | 1 => Raise (binascii_Error One_more_than_multiple_of_4)
      | _ => Raise (binascii_Error Incorrect_padding)
      end
  | this_ch :: ascii' =>
      if N.eqb this_ch BASE64_PAD then
        (* quad_pos >= 2 && quad_pos + ++pads >= 4 *)
        if (2 <=? quad_pos)%nat && (4 <=? quad_pos + S pads)%nat then
          match ascii' with
          | [] => Ok bin
          | _ :: _ => Raise (binascii_Error Excess_data_after_padding)
          end
        else
          a2b_loop ascii' quad_pos leftchar
            (if (2 <=? quad_pos)%nat then S pads else pads) true bin
      else
        match table_a2b_base64 this_ch with
        | None => Raise (binascii_Error Only_base64_data)
        | Some v =>
            if padding_started then
              Raise (binascii_Error Discontinuous_padding)
            else
              match quad_pos with
              | 0 => a2b_loop ascii' 1 v 0 false bin
              | 1 =>
                  a2b_loop ascii' 2 (N.land v 15) 0 false
                    (bin ++ [uchar (N.lor (N.shiftl leftchar 2) (N.shiftr v 4))])
              | 2 =>
                  a2b_loop ascii' 3 (N.land v 3) 0 false
                    (bin ++ [uchar (N.lor (N.shiftl leftchar 4) (N.shiftr v 2))])
              | _ =>
                  a2b_loop ascii' 0 0 0 false
                    (bin ++ [uchar (N.lor (N.shiftl leftchar 6) v)])
              end
        end
  end.

(** [a2b_base64(data, strict_mode=True)]. *)
Definition a2b_base64 (ascii : str) : result bytes :=
  match ascii with
  | c :: _ =>
      if N.eqb c BASE64_PAD then Raise (binascii_Error Leading_padding)
      else a2b_loop ascii 0 0 0 false []
  | [] => a2b_loop ascii 0 0 0 false []
  end.

End binascii.

Module base64.

(** [base64.b64encode(data).decode('ascii')]. *)
Definition b64encode (data : bytes) : str := binascii.b2a_base64 data.

(** [base64.b64decode(s, validate=True)] on a [str]: the argument is first
    encoded to ASCII, which raises ValueError on any other character.  No
    path raises TypeError, so the [except TypeError] branch of the caller is
    never taken. *)
Definition b64decode (s : str) : result bytes :=
  if forallb (fun c => c <? 128)%N s then binascii.a2b_base64 s
  else Raise ValueError_not_ascii.

End base64.

(** ** The constants of the source *)

(** '낑', '깡', '삐', '앙', '버', '거': bit 5 down to bit 0. *)
Definition HANGUL_BITS : list char :=
  [0xB091; 0xAE61; 0xC090; 0xC559; 0xBC84; 0xAC70]%N.

Definition BASE64_ALPHABET : str :=
  str_of "ABCDEFGHIJKLMNOPQRSTUVWXYZabcdefghijklmnopqrstuvwxyz0123456789+/".

(** '뿡' and '뽕'. *)
Definition START_DELIM : char := 0xBFE1%N.
Definition END_DELIM : char := 0xBF55%N.

Definition PADDING_MARKER : str := str_of "=".

(** ** bytes_to_custom_tokens *)

(** The inner loop: the symbols of the bits set in [idx], most significant
    first. *)
Definition present_of (idx : nat) : list char :=
  fold_left
    (fun present '(i, hangul) =>
       let bit := N.land (N.shiftr (N.of_nat idx) (N.of_nat (5 - i))) 1 in
       if N.eqb bit 0 then present else present ++ [hangul])
    (enumerate HANGUL_BITS) [].

(** The body of [for ch in b64], returning the new [out]. *)
Definition encode_body (out : list str) (ch : char) : result (list str) :=
  if N.eqb ch (chr "=") then
    Ok (out ++ [[START_DELIM] ++ PADDING_MARKER ++ [END_DELIM]])
  else
    match index BASE64_ALPHABET ch with
    | None => Raise ValueError_substring_not_found
    | Some idx =>
        let present := present_of idx in
        Ok (out ++ [[START_DELIM] ++ present ++ [END_DELIM]])
    end.

Fixpoint encode_loop (b64 : str) (out : list str) : result (list str) :=
  match b64 with
  | [] => Ok out
  | ch :: b64' => out' <- encode_body out ch ;; encode_loop b64' out'
  end.

(** The list [out] at the end of the loop: the emitted tokens. *)
Definition encode_tokens (data : bytes) : result (list str) :=
  encode_loop (base64.b64encode data) [].

Definition bytes_to_custom_tokens (data : bytes) : result str :=
  out <- encode_tokens data ;; Ok (concat out).

(** ** custom_tokens_to_bytes *)

(** The first loop over [HANGUL_BITS]: shift and or. *)
Definition index_of_content (content : str) : N :=
  fold_left
    (fun idx hangul =>
       let idx := N.shiftl idx 1 in
       if contains content hangul then N.lor idx 1 else idx)
    HANGUL_BITS 0%N.

(** The second loop: the first character of [content] that is not in
    [HANGUL_BITS], if any. *)
Fixpoint first_unknown (content : str) : option char :=
  match content with
  | [] => None
  | ch :: content' =>
      if negb (contains HANGUL_BITS ch) then Some ch
      else first_unknown content'
  end.

(** One iteration of [while i < n], entered with [i < n]: the new cursor and
    the new [b64_chars], or the exception raised. *)
Definition loop_body (token_str : str) (i : nat) (b64_chars : str)
    : result (nat * str) :=
  if negb (N.eqb (nth i token_str 0%N) START_DELIM) then
    Raise (ValueError_expected_start i)
  else
    let i := i + 1 in
    match find token_str END_DELIM i with
    | None => Raise (ValueError_missing_end i)
    | Some j =>
        let content := slice token_str i j in
        let i := j + 1 in
        if str_eqb content PADDING_MARKER then
          Ok (i, b64_chars ++ [chr "="])
        else
          let idx := index_of_content content in
          match first_unknown content with
          | Some ch => Raise (ValueError_unknown_char ch)
          | None =>
              match nth_error BASE64_ALPHABET (N.to_nat idx) with
              | None => Raise IndexError
              | Some c => Ok (i, b64_chars ++ [c])
              end
          end
    end.

Definition inspect {A} (a : A) : {b : A | a = b} := exist _ a eq_refl.

(** [while i < n: ...], returning [b64_chars] at loop exit. *)
Equations? while_loop (token_str : str) (i : nat) (b64_chars : str)
    : result str by wf (length token_str - i) lt :=
  while_loop token_str i b64_chars with inspect (i <? length token_str) := {
    | exist _ false _ => Ok b64_chars
    | exist _ true Hlt with inspect (loop_body token_str i b64_chars) := {
        | exist _ (Raise e) _ => Raise e
        | exist _ (Ok (i', b64_chars')) Hbody =>
            while_loop token_str i' b64_chars' } }.
Proof.
  (* the cursor advances: [find] returns a position at or after its start *)
  apply Nat.ltb_lt in Hlt.
  enough (i < i') by lia.
  revert Hbody. unfold loop_body.
  destruct (negb _); [discriminate|].
  destruct (find token_str END_DELIM (i + 1)) as [j|] eqn:Hj; [|discriminate].
  assert (Hfrom : forall (l : list N) k,
            index_from l END_DELIM k = Some j -> k <= j).
  { induction l as [|x l IH]; intros k; simpl; [discriminate|].
    destruct (N.eqb x END_DELIM).
    - intros [= <-]. lia.
    - intros H. apply IH in H. lia. }
  apply Hfrom in Hj.
  destruct (str_eqb _ _).
  - intros [= <- _]. lia.
  - destruct (first_unknown _); [discriminate|].
    destruct (nth_error _ _); [|discriminate].
    intros [= <- _]. lia.
Qed.

Definition custom_tokens_to_bytes (token_str : str) : result bytes :=
  b64_str <- while_loop token_str 0 [] ;;
  base64.b64decode b64_str.

(** ** Notions used in the statements *)

Definition bytes_of (s : string) : bytes := list_byte_of_string s.

(** The six shift-and-or steps over the presence of each symbol. *)
Definition bits_index (b5 b4 b3 b2 b1 b0 : bool) : N :=
  fold_left
    (fun idx (b : bool) =>
       let idx := N.shiftl idx 1 in if b then N.lor idx 1 else idx)
    [b5; b4; b3; b2; b1; b0] 0%N.

(** A character of a Base64 text: padding or a member of the alphabet. *)
Definition b64_char (c : char) : Prop := c = chr "=" \/ In c BASE64_ALPHABET.

(** The token [encode_body] appends for [ch]. *)
Definition token_of (ch : char) : str :=
  if N.eqb ch (chr "=") then [START_DELIM] ++ PADDING_MARKER ++ [END_DELIM]
  else
    match index BASE64_ALPHABET ch with
    | Some idx => [START_DELIM] ++ present_of idx ++ [END_DELIM]
    | None => []
    end.

(** What the loop body records for a token content. *)
Definition content_char (content : str) : result char :=
  if str_eqb content PADDING_MARKER then Ok (chr "=")
  else
    match first_unknown content with
    | Some ch => Raise (ValueError_unknown_char ch)
    | None =>
        match nth_error BASE64_ALPHABET (N.to_nat (index_of_content content)) with
        | None => Raise IndexError
        | Some c => Ok c
        end
    end.

(** [l1] is [l2] with some elements left out, the others in their order. *)
Inductive subseq {A : Type} : list A -> list A -> Prop :=
| subseq_nil : subseq [] []
| subseq_skip x l1 l2 : subseq l1 l2 -> subseq l1 (x :: l2)
| subseq_take x l1 l2 : subseq l1 l2 -> subseq (x :: l1) (x :: l2).

Fixpoint subseqb (l1 l2 : str) : bool :=
  match l1, l2 with
  | [], _ => true
  | _ :: _, [] => false
  | x :: l1', y :: l2' =>
      if N.eqb x y then subseqb l1' l2' else subseqb l1 l2'
  end.

(** [ceil(n / d)] on naturals. *)
Definition ceil_div (n d : nat) : nat := (n + (d - 1)) / d.

(** The shape of the token emitted for the Base64 character [ch]. *)
Definition token_shape (ch : char) (t : str) : Prop :=
  exists content,
    t = [START_DELIM] ++ content ++ [END_DELIM]
    /\ ((ch = chr "=" /\ content = PADDING_MARKER)
        \/ (ch <> chr "=" /\ subseq content HANGUL_BITS /\ NoDup content
            /\ ~ In (chr "=") t)).

(** [reaches token_str i b64_chars]: the loop test is evaluated with the
    cursor at [i] and [b64_chars] recorded so far. *)
Inductive reaches (token_str : str) : nat -> str -> Prop :=
| reaches_entry : reaches token_str 0 []
| reaches_iter i b64_chars i' b64_chars' :
    reaches token_str i b64_chars ->
    i < length token_str ->
    loop_body token_str i b64_chars = Ok (i', b64_chars') ->
    reaches token_str i' b64_chars'.

Definition is_ok {A} (r : result A) : bool :=
  match r with
  | Ok _ => true
  | Raise _ => false
  end.

Definition is_pad (c : char) : bool := N.eqb c (chr "=").

(** The characters of [u] before its first '=', and [u] from there on. *)
Fixpoint data_prefix (u : str) : str :=
  match u with
  | [] => []
  | c :: u' => if is_pad c then [] else c :: data_prefix u'
  end.

Fixpoint after_data (u : str) : str :=
  match u with
  | [] => []
  | c :: u' => if is_pad c then u else after_data u'
  end.

(** Strict structural validity in the words of the spec: the total length is
    a multiple of 4, padding appears only as a suffix of length at most 2, and
    the other characters are members of the alphabet. *)
Definition strictly_valid (u : str) : bool :=
  (length u mod 4 =? 0)
  && forallb is_pad (after_data u)
  && (length (after_data u) <=? 2)
  && forallb (contains BASE64_ALPHABET) (data_prefix u).

(** A positive multiple of 4 of alphabet characters followed by one or more
    padding characters and nothing else. *)
Definition quads_then_padding (u : str) : bool :=
  (0 <? length (data_prefix u))
  && (length (data_prefix u) mod 4 =? 0)
  && forallb is_pad (after_data u)
  && (0 <? length (after_data u))
  && forallb (contains BASE64_ALPHABET) (data_prefix u).


(** ** The wire format *)

(** [START + content + END]. *)
Definition token (content : str) : str :=
  [START_DELIM] ++ content ++ [END_DELIM].

(** The concatenation of the tokens of the given contents. *)
Definition stream (contents : list str) : str := concat (map token contents).

(** The character the loop body records for a content it accepts: '=' for the
    padding marker, [BASE64_ALPHABET[idx]] for symbols of the table. *)
Definition decodes_to (content : str) (c : char) : Prop :=
  (content = PADDING_MARKER /\ c = chr "=")
  \/ (Forall (fun ch => In ch HANGUL_BITS) content
      /\ nth_error BASE64_ALPHABET (N.to_nat (index_of_content content))
         = Some c).

(** [token_str[:i]] is a sequence of tokens the loop accepts. *)
Definition well_formed_prefix (token_str : str) (i : nat) : Prop :=
  exists contents b64_chars,
    firstn i token_str = stream contents
    /\ Forall2 decodes_to contents b64_chars.

(** The nine symbols of the wire format. *)
Definition reserved (c : char) : Prop :=
  c = START_DELIM \/ c = END_DELIM \/ c = chr "=" \/ In c HANGUL_BITS.

(** Bytes written by the strict-mode loop when [quad_pos] characters of a
    quad have been read. *)
Definition quad_bytes (quad_pos : nat) : nat :=
  match quad_pos with
  | 0 => 0
  | 1 => 0
  | 2 => 1
  | _ => 2
  end.

(** ** _run_tests *)

(** A line written by [print], by its format and the values it shows. *)
Inductive line :=
| line_sample (s : list byte)      (* f"sample={s!r}" *)
| line_token (tok : list N)        (* f" token={tok}" *)
| line_back (back : list byte)     (* f" back={back!r}" *)
| line_all_tests_passed.           (* "All tests passed." *)

(** What ends the test early: a failed [assert], with its message if it has
    one, or an exception of the two functions, which the test does not
    catch. *)
Inductive test_exn :=
| AssertionError (msg : option string)
| Uncaught (e : exn).

(** [back == s] on bytes. *)
Fixpoint bytes_eqb (a b : bytes) : bool :=
  match a, b with
  | [], [] => true
  | x :: a', y :: b' => Byte.eqb x y && bytes_eqb a' b'
  | _, _ => false
  end.

(** The loop [for s in samples], from the lines printed so far: the lines
    printed at its end, and the exception that ended it, if any. *)
Fixpoint run_tests_loop (samples : list (list byte)) (stdout : list line)
    : list line * option test_exn :=
  match samples with
  | [] => (stdout, None)
  | s :: samples' =>
      match bytes_to_custom_tokens s with
      | Raise e => (stdout, Some (Uncaught e))
      | Ok tok =>
          match custom_tokens_to_bytes tok with
          | Raise e => (stdout, Some (Uncaught e))
          | Ok back =>
              let stdout :=
                stdout ++ [line_sample s; line_token tok; line_back back] in
              if bytes_eqb back s then run_tests_loop samples' stdout
              else (stdout, Some (AssertionError (Some "roundtrip failed"%string)))
          end
      end
  end.

Definition _run_tests : list line * option test_exn :=
  let samples :=
    [[]; bytes_of "f"; bytes_of "fo"; bytes_of "foo";
     bytes_of "hello world"; [x00; xff; x10; x20]] in
  match run_tests_loop samples [] with
  | (stdout, Some e) => (stdout, Some e)
  | (stdout, None) =>
      let s := bytes_of "Base64 test" in
      match bytes_to_custom_tokens s with
      | Raise e => (stdout, Some (Uncaught e))
      | Ok tok =>
          match custom_tokens_to_bytes tok with
          | Raise e => (stdout, Some (Uncaught e))
          | Ok back =>
              if bytes_eqb back s then
                (stdout ++ [line_all_tests_passed], None)
              else (stdout, Some (AssertionError None))
          end
      end
  end.

(** ** The samples of [_run_tests] *)

Example sample_empty :
  bytes_to_custom_tokens [] = Ok [] /\ custom_tokens_to_bytes [] = Ok [].
Proof. split; reflexivity. Qed.

Example sample_f :
  bytes_to_custom_tokens (bytes_of "f")
  = Ok ([0xBFE1; 0xAE61; 0xC090; 0xAC70; 0xBF55;
         0xBFE1; 0xB091; 0xBF55;
         0xBFE1; 0x3D; 0xBF55;
         0xBFE1; 0x3D; 0xBF55]%N).
Proof. vm_compute. reflexivity. Qed.

Example sample_hello_world :
  (t <- bytes_to_custom_tokens (bytes_of "hello world") ;;
   custom_tokens_to_bytes t) = Ok (bytes_of "hello world").
Proof. vm_compute. reflexivity. Qed.

(** ** The loop, unfolded once *)

Lemma while_loop_eq (token_str : str) (i : nat) (b64_chars : str) :
  while_loop token_str i b64_chars =
  if i <? length token_str then
    match loop_body token_str i b64_chars with
    | Ok (i', b64_chars') => while_loop token_str i' b64_chars'
    | Raise e => Raise e
    end
  else Ok b64_chars.
Proof.
  funelim (while_loop token_str i b64_chars).
  all: try rewrite <- Heqcall.
  all: try match goal with E : (_ <? _) = _ |- _ => rewrite E end.
  all: try match goal with E : loop_body _ _ _ = _ |- _ => rewrite E end.
  all: reflexivity.
Qed.

(** ** Facts on the string primitives *)

Lemma str_eqb_eq (a b : str) : str_eqb a b = true <-> a = b.
Proof.
  revert b; induction a as [|x a IH]; intros [|y b]; simpl;
    try (split; [discriminate | congruence]); try tauto.
  rewrite andb_true_iff, N.eqb_eq, IH.
  split; [intros [-> ->]; reflexivity | intros [= -> ->]; auto].
Qed.

Lemma str_eqb_neq (a b : str) : str_eqb a b = false <-> a <> b.
Proof.
  rewrite <- str_eqb_eq. destruct (str_eqb a b); split; congruence.
Qed.

Lemma contains_In (s : str) (c : char) : contains s c = true <-> In c s.
Proof.
  unfold contains. rewrite existsb_exists. split.
  - intros (x & Hx & E). apply N.eqb_eq in E. subst. exact Hx.
  - intros H. exists c. split; [exact H | apply N.eqb_refl].
Qed.

Lemma contains_false (s : str) (c : char) : contains s c = false <-> ~ In c s.
Proof.
  rewrite <- contains_In. destruct (contains s c); split; congruence.
Qed.

Lemma index_from_skip (pre rest : str) (c : char) (k : nat) :
  ~ In c pre ->
  index_from (pre ++ c :: rest) c k = Some (k + length pre).
Proof.
  revert k; induction pre as [|x pre IH]; intros k Hnot; simpl.
  - rewrite N.eqb_refl. f_equal. lia.
  - destruct (N.eqb_spec x c) as [->|_].
    + exfalso. apply Hnot. left. reflexivity.
    + rewrite IH by (intros H; apply Hnot; right; exact H).
      f_equal. lia.
Qed.

Lemma index_from_none (s : str) (c : char) (k : nat) :
  index_from s c k = None <-> ~ In c s.
Proof.
  revert k; induction s as [|x s IH]; intros k; simpl.
  - tauto.
  - destruct (N.eqb_spec x c) as [->|Hne].
    + split; [discriminate | intros H; exfalso; apply H; auto].
    + rewrite IH. split; intros H; [intros [E|E]; congruence | tauto].
Qed.

Lemma index_from_some (s : str) (c : char) (k j : nat) :
  index_from s c k = Some j ->
  exists pre rest, s = pre ++ c :: rest /\ ~ In c pre /\ j = k + length pre.
Proof.
  revert k; induction s as [|x s IH]; intros k; simpl; [discriminate|].
  destruct (N.eqb_spec x c) as [->|Hne].
  - intros [= <-]. exists [], s. simpl. repeat split; auto; lia.
  - intros H. destruct (IH _ H) as (pre & rest & -> & Hnot & ->).
    exists (x :: pre), rest. simpl. repeat split; [|lia].
    intros [E|E]; [congruence | tauto].
Qed.

Lemma index_lt (s : str) (c : char) (j : nat) :
  index s c = Some j -> j < length s /\ nth_error s j = Some c.
Proof.
  intros H. apply index_from_some in H.
  destruct H as (pre & rest & -> & _ & ->). simpl.
  rewrite length_app. simpl. split; [lia|].
  rewrite nth_error_app2 by lia. rewrite Nat.sub_diag. reflexivity.
Qed.

Lemma index_in (s : str) (c : char) :
  In c s -> exists j, index s c = Some j.
Proof.
  intros H. destruct (index s c) as [j|] eqn:E; [eauto|].
  apply index_from_none in E. contradiction.
Qed.

Lemma skipn_app_length {A} (pre rest : list A) :
  skipn (length pre) (pre ++ rest) = rest.
Proof. induction pre; simpl; auto. Qed.

(** A token in the middle of a string, seen through the three primitives of
    the loop body. *)
Section TokenInContext.

Variables (pre content rest : str).
Hypothesis content_no_end : ~ In END_DELIM content.

Let s := pre ++ START_DELIM :: content ++ END_DELIM :: rest.

Lemma token_nth : nth (length pre) s 0%N = START_DELIM.
Proof.
  unfold s. rewrite app_nth2 by lia. rewrite Nat.sub_diag. reflexivity.
Qed.

Lemma token_skipn :
  skipn (length pre + 1) s = content ++ END_DELIM :: rest.
Proof.
  unfold s.
  replace (pre ++ START_DELIM :: content ++ END_DELIM :: rest)
    with ((pre ++ [START_DELIM]) ++ content ++ END_DELIM :: rest)
    by (rewrite <- app_assoc; reflexivity).
  replace (length pre + 1) with (length (pre ++ [START_DELIM]))
    by (rewrite length_app; reflexivity).
  apply skipn_app_length.
Qed.

Lemma token_find :
  find s END_DELIM (length pre + 1)
  = Some (length pre + 1 + length content).
Proof.
  unfold find. rewrite token_skipn.
  apply index_from_skip. exact content_no_end.
Qed.

Lemma token_slice :
  slice s (length pre + 1) (length pre + 1 + length content) = content.
Proof.
  unfold slice. rewrite token_skipn.
  replace (length pre + 1 + length content - (length pre + 1))
    with (length content) by lia.
  rewrite firstn_app, Nat.sub_diag, firstn_all. simpl.
  apply app_nil_r.
Qed.

End TokenInContext.

(** ** The index of a token content *)

Lemma index_of_content_bits (content : str) :
  index_of_content content
  = bits_index (contains content 0xB091%N) (contains content 0xAE61%N)
               (contains content 0xC090%N) (contains content 0xC559%N)
               (contains content 0xBC84%N) (contains content 0xAC70%N).
Proof. reflexivity. Qed.

Lemma bits_index_lt (b5 b4 b3 b2 b1 b0 : bool) :
  (bits_index b5 b4 b3 b2 b1 b0 < 64)%N.
Proof. destruct b5, b4, b3, b2, b1, b0; reflexivity. Qed.

Lemma index_of_content_lt (content : str) : (index_of_content content < 64)%N.
Proof. rewrite index_of_content_bits. apply bits_index_lt. Qed.

Lemma index_of_content_testbit (content : str) (k : nat) :
  k < 6 ->
  N.testbit (index_of_content content) (N.of_nat (5 - k))
  = contains content (nth k HANGUL_BITS 0%N).
Proof.
  intros Hk. rewrite index_of_content_bits.
  do 6 (destruct k as [|k]; [simpl nth;
    destruct (contains content 0xB091%N), (contains content 0xAE61%N),
             (contains content 0xC090%N), (contains content 0xC559%N),
             (contains content 0xBC84%N), (contains content 0xAC70%N);
    reflexivity|]).
  lia.
Qed.

Lemma contains_ext (c1 c2 : str) :
  (forall x, In x c1 <-> In x c2) ->
  forall h, contains c1 h = contains c2 h.
Proof.
  intros H h. destruct (contains c2 h) eqn:E.
  - apply contains_In. apply H. apply contains_In. exact E.
  - apply contains_false. intros Hin. apply H in Hin.
    apply contains_In in Hin. congruence.
Qed.

Lemma index_of_content_ext (c1 c2 : str) :
  (forall x, In x c1 <-> In x c2) ->
  index_of_content c1 = index_of_content c2.
Proof.
  intros H. rewrite !index_of_content_bits.
  rewrite !(contains_ext c1 c2 H). reflexivity.
Qed.

Lemma alphabet_lookup (idx : N) :
  (idx < 64)%N ->
  exists c, nth_error BASE64_ALPHABET (N.to_nat idx) = Some c
            /\ In c BASE64_ALPHABET.
Proof.
  intros H.
  destruct (nth_error BASE64_ALPHABET (N.to_nat idx)) as [c|] eqn:E.
  - exists c. split; [reflexivity | eapply nth_error_In; exact E].
  - apply nth_error_None in E.
    change (length BASE64_ALPHABET) with 64 in E. lia.
Qed.

Lemma first_unknown_none (content : str) :
  first_unknown content = None <-> Forall (fun ch => In ch HANGUL_BITS) content.
Proof.
  induction content as [|ch content IH]; cbn [first_unknown].
  - split; auto.
  - destruct (contains HANGUL_BITS ch) eqn:E; cbn [negb].
    + rewrite IH. apply contains_In in E.
      split; [intros H; constructor; assumption | intros H; inversion H; assumption].
    + split; [discriminate|]. intros H. inversion H; subst.
      apply contains_false in E. contradiction.
Qed.

Lemma first_unknown_some (content : str) (ch : char) :
  first_unknown content = Some ch -> In ch content /\ ~ In ch HANGUL_BITS.
Proof.
  induction content as [|x content IH]; cbn [first_unknown]; [discriminate|].
  destruct (contains HANGUL_BITS x) eqn:E; cbn [negb].
  - intros H. destruct (IH H). split; [right|]; assumption.
  - intros [= <-]. apply contains_false in E. split; [left; reflexivity | exact E].
Qed.

Lemma first_unknown_exists (content : str) (ch : char) :
  In ch content -> ~ In ch HANGUL_BITS ->
  exists ch', first_unknown content = Some ch'.
Proof.
  intros Hin Hnot. destruct (first_unknown content) as [ch'|] eqn:E; [eauto|].
  apply first_unknown_none in E. rewrite Forall_forall in E.
  exfalso. apply Hnot. apply E. exact Hin.
Qed.

(** A check over the 64 indices. *)
Lemma below_64 (P : nat -> bool) :
  forallb P (seq 0 64) = true -> forall idx, idx < 64 -> P idx = true.
Proof.
  intros H idx Hidx. rewrite forallb_forall in H.
  apply H. apply in_seq. lia.
Qed.

Lemma index_of_content_present (idx : nat) :
  idx < 64 -> index_of_content (present_of idx) = N.of_nat idx.
Proof.
  intros H. apply N.eqb_eq. revert idx H.
  apply (below_64 (fun idx =>
    N.eqb (index_of_content (present_of idx)) (N.of_nat idx))).
  vm_compute. reflexivity.
Qed.

Lemma first_unknown_present (idx : nat) :
  idx < 64 -> first_unknown (present_of idx) = None.
Proof.
  intros H.
  enough (E : forallb (contains HANGUL_BITS) (present_of idx) = true).
  { apply first_unknown_none. rewrite forallb_forall in E.
    apply Forall_forall. intros ch Hch. apply contains_In, E, Hch. }
  revert idx H.
  apply (below_64 (fun idx => forallb (contains HANGUL_BITS) (present_of idx))).
  vm_compute. reflexivity.
Qed.

Lemma present_in_table (idx : nat) :
  idx < 64 -> Forall (fun ch => In ch HANGUL_BITS) (present_of idx).
Proof. intros H. apply first_unknown_none, first_unknown_present, H. Qed.

Lemma present_not_padding (idx : nat) :
  idx < 64 -> str_eqb (present_of idx) PADDING_MARKER = false.
Proof.
  intros H. apply str_eqb_neq. intros E.
  pose proof (present_in_table _ H) as HF. rewrite E in HF.
  inversion HF as [|? ? Hin _]; subst.
  apply contains_In in Hin. vm_compute in Hin. discriminate.
Qed.

Lemma table_no_end (content : str) :
  Forall (fun ch => In ch HANGUL_BITS) content -> ~ In END_DELIM content.
Proof.
  intros HF Hin. rewrite Forall_forall in HF. apply HF in Hin.
  apply contains_In in Hin. vm_compute in Hin. discriminate.
Qed.

(** ** Tokens and the loop over a stream of tokens *)

Lemma alphabet_index (c : char) :
  In c BASE64_ALPHABET ->
  exists idx, index BASE64_ALPHABET c = Some idx /\ idx < 64
              /\ nth_error BASE64_ALPHABET idx = Some c.
Proof.
  intros H. destruct (index_in _ _ H) as [idx E].
  exists idx. destruct (index_lt _ _ _ E) as [Hlt Hnth].
  repeat split; assumption.
Qed.

Lemma alphabet_not_pad (c : char) :
  In c BASE64_ALPHABET -> N.eqb c (chr "=") = false.
Proof.
  intros H. destruct (N.eqb_spec c (chr "=")) as [->|]; [|reflexivity].
  apply contains_In in H. vm_compute in H. discriminate.
Qed.

Lemma encode_body_token (out : list str) (ch : char) :
  b64_char ch -> encode_body out ch = Ok (out ++ [token_of ch]).
Proof.
  intros [->|H]; [reflexivity|].
  unfold encode_body, token_of. rewrite (alphabet_not_pad _ H).
  destruct (alphabet_index _ H) as (idx & -> & _). reflexivity.
Qed.

Lemma encode_loop_tokens (b64 : str) :
  Forall b64_char b64 ->
  forall out, encode_loop b64 out = Ok (out ++ map token_of b64).
Proof.
  induction 1 as [|ch b64 Hch _ IH]; intros out; simpl.
  - rewrite app_nil_r. reflexivity.
  - rewrite (encode_body_token _ _ Hch). simpl. rewrite IH, <- app_assoc.
    reflexivity.
Qed.

Lemma loop_body_content (token_str : str) (i j : nat) (b64_chars : str) :
  nth i token_str 0%N = START_DELIM ->
  find token_str END_DELIM (i + 1) = Some j ->
  loop_body token_str i b64_chars
  = (c <- content_char (slice token_str (i + 1) j) ;;
     Ok (j + 1, b64_chars ++ [c])).
Proof.
  intros Hs Hj. unfold loop_body, content_char.
  rewrite Hs, N.eqb_refl. cbn [negb]. rewrite Hj.
  destruct (str_eqb _ _); [reflexivity|].
  destruct (first_unknown _); [reflexivity|].
  destruct (nth_error _ _); reflexivity.
Qed.

Lemma loop_body_token (pre content rest : str) (b64_chars : str) :
  ~ In END_DELIM content ->
  loop_body (pre ++ START_DELIM :: content ++ END_DELIM :: rest)
            (length pre) b64_chars
  = (c <- content_char content ;;
     Ok (length pre + length content + 2, b64_chars ++ [c])).
Proof.
  intros Hno.
  rewrite (loop_body_content _ _ (length pre + 1 + length content)).
  - rewrite token_slice by exact Hno.
    replace (length pre + 1 + length content + 1)
      with (length pre + length content + 2) by lia.
    reflexivity.
  - apply token_nth.
  - apply token_find. exact Hno.
Qed.

Lemma token_of_shape (ch : char) :
  b64_char ch ->
  exists content,
    token_of ch = START_DELIM :: content ++ [END_DELIM]
    /\ ~ In END_DELIM content
    /\ content_char content = Ok ch.
Proof.
  intros [->|H].
  - exists PADDING_MARKER. repeat split.
    intros Hin. apply contains_In in Hin. vm_compute in Hin. discriminate.
  - destruct (alphabet_index _ H) as (idx & Hidx & Hlt & Hnth).
    exists (present_of idx). unfold token_of.
    rewrite (alphabet_not_pad _ H), Hidx. split; [reflexivity|]. split.
    + apply table_no_end, present_in_table, Hlt.
    + unfold content_char.
      rewrite (present_not_padding _ Hlt), (first_unknown_present _ Hlt).
      rewrite (index_of_content_present _ Hlt), Nat2N.id, Hnth. reflexivity.
Qed.

Lemma while_loop_tokens (b64 : str) :
  Forall b64_char b64 ->
  forall pre b64_chars,
    while_loop (pre ++ concat (map token_of b64)) (length pre) b64_chars
    = Ok (b64_chars ++ b64).
Proof.
  induction 1 as [|ch b64 Hch _ IH]; intros pre b64_chars.
  - rewrite while_loop_eq. simpl. rewrite !app_nil_r.
    rewrite Nat.ltb_irrefl. reflexivity.
  - rewrite while_loop_eq. simpl.
    destruct (token_of_shape _ Hch) as (content & Etok & Hno & Hc).
    replace (length pre <? length (pre ++ token_of ch ++ concat (map token_of b64)))
      with true
      by (symmetry; apply Nat.ltb_lt; rewrite Etok, length_app; simpl; lia).
    pose proof (loop_body_token pre content (concat (map token_of b64))
                  b64_chars Hno) as Hbody.
    rewrite Hc in Hbody. simpl in Hbody.
    replace (pre ++ token_of ch ++ concat (map token_of b64))
      with (pre ++ START_DELIM :: content ++ END_DELIM :: concat (map token_of b64))
      by (rewrite Etok; simpl; rewrite <- app_assoc; reflexivity).
    rewrite Hbody.
    replace (pre ++ START_DELIM :: content ++ END_DELIM :: concat (map token_of b64))
      with ((pre ++ token_of ch) ++ concat (map token_of b64))
      by (rewrite Etok, <- !app_assoc; simpl; rewrite <- app_assoc; reflexivity).
    replace (length pre + length content + 2) with (length (pre ++ token_of ch))
      by (rewrite Etok, length_app; simpl; rewrite length_app; simpl; lia).
    rewrite IH, <- app_assoc. reflexivity.
Qed.

(** ** The library round trip: a2b_base64 after b2a_base64 *)

Module binascii_facts.
Import binascii.

(** Checks over all 6-bit values and over all octets. *)
Lemma N_below (n : nat) (P : N -> bool) :
  forallb P (map N.of_nat (seq 0 n)) = true ->
  forall x, (x < N.of_nat n)%N -> P x = true.
Proof.
  intros H x Hx. rewrite forallb_forall in H. apply H.
  apply in_map_iff. exists (N.to_nat x). split; [apply N2Nat.id|].
  apply in_seq. lia.
Qed.

Lemma N_below2 (n : nat) (P : N -> N -> bool) :
  forallb (fun x => forallb (P x) (map N.of_nat (seq 0 n)))
          (map N.of_nat (seq 0 n)) = true ->
  forall x y, (x < N.of_nat n)%N -> (y < N.of_nat n)%N -> P x y = true.
Proof.
  intros H x y Hx Hy.
  pose proof (N_below n _ H x Hx) as Hrow. cbv beta in Hrow.
  exact (N_below n _ Hrow y Hy).
Qed.

Lemma to_N_lt (a : byte) : (Byte.to_N a < 256)%N.
Proof. pose proof (Byte.to_N_bounded a). lia. Qed.

Lemma b2a_alphabet (v : N) : (v < 64)%N -> In (b2a v) BASE64_ALPHABET.
Proof.
  intros H. unfold b2a. apply nth_In.
  change (length BASE64_ALPHABET) with 64. lia.
Qed.

Lemma b2a_not_pad (v : N) : (v < 64)%N -> N.eqb (b2a v) BASE64_PAD = false.
Proof.
  intros H. apply negb_true_iff. revert v H.
  apply (N_below 64 (fun v => negb (N.eqb (b2a v) BASE64_PAD))).
  vm_compute. reflexivity.
Qed.

Lemma a2b_b2a (v : N) : (v < 64)%N -> table_a2b_base64 (b2a v) = Some v.
Proof.
  intros H.
  enough (E : match table_a2b_base64 (b2a v) with
              | Some w => N.eqb w v
              | None => false
              end = true).
  { destruct (table_a2b_base64 (b2a v)); [|discriminate].
    apply N.eqb_eq in E. congruence. }
  revert v H.
  apply (N_below 64 (fun v => match table_a2b_base64 (b2a v) with
                              | Some w => N.eqb w v
                              | None => false
                              end)).
  vm_compute. reflexivity.
Qed.

Lemma alphabet_b2a (c : char) :
  In c BASE64_ALPHABET -> exists v, (v < 64)%N /\ c = b2a v.
Proof.
  intros H. destruct (In_nth _ _ 0%N H) as (n & Hn & E).
  change (length BASE64_ALPHABET) with 64 in Hn.
  exists (N.of_nat n). split; [lia|].
  unfold b2a. rewrite Nat2N.id. symmetry. exact E.
Qed.

Lemma uchar_eq (x : N) (a : byte) : (x mod 256 = Byte.to_N a)%N -> uchar x = a.
Proof. intros E. unfold uchar. rewrite E, Byte.of_to_N. reflexivity. Qed.

(** One data character read by the loop. *)
Lemma a2b_loop_data (v : N) (ascii : str) (quad_pos : nat) (leftchar : N)
    (pads : nat) (bin : bytes) :
  (v < 64)%N ->
  a2b_loop (b2a v :: ascii) quad_pos leftchar pads false bin
  = match quad_pos with
    | 0 => a2b_loop ascii 1 v 0 false bin
    | 1 =>
        a2b_loop ascii 2 (N.land v 15) 0 false
          (bin ++ [uchar (N.lor (N.shiftl leftchar 2) (N.shiftr v 4))])
    | 2 =>
        a2b_loop ascii 3 (N.land v 3) 0 false
          (bin ++ [uchar (N.lor (N.shiftl leftchar 4) (N.shiftr v 2))])
    | _ =>
        a2b_loop ascii 0 0 0 false
          (bin ++ [uchar (N.lor (N.shiftl leftchar 6) v)])
    end.
Proof.
  intros H. cbn [a2b_loop]. rewrite (b2a_not_pad _ H), (a2b_b2a _ H).
  reflexivity.
Qed.

(** The arithmetic of one group, checked over all octets. *)
Ltac check_octets_1 A HA :=
  pattern A; revert A HA; apply (N_below 256); vm_compute; reflexivity.

Ltac check_octets_2 A HA B HB :=
  pattern A, B; revert A B HA HB; apply (N_below2 256); vm_compute;
  reflexivity.

Lemma sextet_1 (A : N) : (A < 256)%N -> (N.shiftr A 2 < 64)%N.
Proof. intros HA. apply N.ltb_lt. check_octets_1 A HA. Qed.

Lemma sextet_2 (A B : N) :
  (A < 256)%N -> (B < 256)%N ->
  (N.lor (N.shiftl (N.land A 3) 4) (N.shiftr B 4) < 64)%N.
Proof. intros HA HB. apply N.ltb_lt. check_octets_2 A HA B HB. Qed.

Lemma sextet_2_last (A : N) :
  (A < 256)%N -> (N.shiftl (N.land A 3) 4 < 64)%N.
Proof. intros HA. apply N.ltb_lt. check_octets_1 A HA. Qed.

Lemma sextet_3 (A B : N) :
  (A < 256)%N -> (B < 256)%N ->
  (N.lor (N.shiftl (N.land A 15) 2) (N.shiftr B 6) < 64)%N.
Proof. intros HA HB. apply N.ltb_lt. check_octets_2 A HA B HB. Qed.

Lemma sextet_3_last (A : N) :
  (A < 256)%N -> (N.shiftl (N.land A 15) 2 < 64)%N.
Proof. intros HA. apply N.ltb_lt. check_octets_1 A HA. Qed.

Lemma sextet_4 (A : N) : (A < 256)%N -> (N.land A 63 < 64)%N.
Proof. intros HA. apply N.ltb_lt. check_octets_1 A HA. Qed.

(** First octet, from the first two characters. *)
Lemma octet_1 (A B : N) :
  (A < 256)%N -> (B < 256)%N ->
  (N.lor (N.shiftl (N.shiftr A 2) 2)
         (N.shiftr (N.lor (N.shiftl (N.land A 3) 4) (N.shiftr B 4)) 4)
   mod 256 = A)%N.
Proof. intros HA HB. apply N.eqb_eq. check_octets_2 A HA B HB. Qed.

Lemma octet_1_last (A : N) :
  (A < 256)%N ->
  (N.lor (N.shiftl (N.shiftr A 2) 2) (N.shiftr (N.shiftl (N.land A 3) 4) 4)
   mod 256 = A)%N.
Proof. intros HA. apply N.eqb_eq. check_octets_1 A HA. Qed.

(** Second octet [B]: the low four bits of the second character and the high
    four bits of the third. *)
Lemma octet_2_high (A B : N) :
  (A < 256)%N -> (B < 256)%N ->
  N.land (N.lor (N.shiftl (N.land A 3) 4) (N.shiftr B 4)) 15 = N.shiftr B 4.
Proof. intros HA HB. apply N.eqb_eq. check_octets_2 A HA B HB. Qed.

Lemma octet_2_low (B C : N) :
  (B < 256)%N -> (C < 256)%N ->
  N.shiftr (N.lor (N.shiftl (N.land B 15) 2) (N.shiftr C 6)) 2 = N.land B 15.
Proof. intros HB HC. apply N.eqb_eq. check_octets_2 B HB C HC. Qed.

Lemma octet_2_low_last (B : N) :
  (B < 256)%N -> N.shiftr (N.shiftl (N.land B 15) 2) 2 = N.land B 15.
Proof. intros HB. apply N.eqb_eq. check_octets_1 B HB. Qed.

Lemma octet_2 (B : N) :
  (B < 256)%N ->
  (N.lor (N.shiftl (N.shiftr B 4) 4) (N.land B 15) mod 256 = B)%N.
Proof. intros HB. apply N.eqb_eq. check_octets_1 B HB. Qed.

(** Third octet [C]: the low two bits of the third character and the
    fourth. *)
Lemma octet_3 (B C : N) :
  (B < 256)%N -> (C < 256)%N ->
  (N.lor (N.shiftl
            (N.land (N.lor (N.shiftl (N.land B 15) 2) (N.shiftr C 6)) 3) 6)
         (N.land C 63)
   mod 256 = C)%N.
Proof. intros HB HC. apply N.eqb_eq. check_octets_2 B HB C HC. Qed.

Lemma list_ind3 {A} (P : list A -> Prop) :
  P [] -> (forall a, P [a]) -> (forall a b, P [a; b]) ->
  (forall a b c l, P l -> P (a :: b :: c :: l)) ->
  forall l, P l.
Proof.
  intros H0 H1 H2 H3 l.
  enough (H : P l /\ (forall a, P (a :: l)) /\ (forall a b, P (a :: b :: l)))
    by apply H.
  induction l as [|x l (IH0 & IH1 & IH2)].
  - auto.
  - repeat split; auto.
Qed.

Lemma a2b_loop_pad_2 (leftchar : N) (bin : bytes) :
  a2b_loop [BASE64_PAD; BASE64_PAD] 2 leftchar 0 false bin = Ok bin.
Proof. reflexivity. Qed.

Lemma a2b_loop_pad_3 (leftchar : N) (bin : bytes) :
  a2b_loop [BASE64_PAD] 3 leftchar 0 false bin = Ok bin.
Proof. reflexivity. Qed.

Lemma a2b_loop_b2a (data : bytes) :
  forall bin, a2b_loop (b2a_base64 data) 0 0 0 false bin = Ok (bin ++ data).
Proof.
  induction data as [|a|a b|a b c data IH] using list_ind3; intros bin.
  - simpl. rewrite app_nil_r. reflexivity.
  - pose proof (to_N_lt a) as Ha. cbn [b2a_base64]. cbv zeta.
    rewrite a2b_loop_data by (apply sextet_1, Ha). cbv beta iota.
    rewrite a2b_loop_data by (apply sextet_2_last, Ha). cbv beta iota.
    rewrite a2b_loop_pad_2.
    rewrite (uchar_eq _ a (octet_1_last _ Ha)). reflexivity.
  - pose proof (to_N_lt a) as Ha. pose proof (to_N_lt b) as Hb.
    cbn [b2a_base64]. cbv zeta.
    rewrite a2b_loop_data by (apply sextet_1, Ha). cbv beta iota.
    rewrite a2b_loop_data by (apply sextet_2; assumption). cbv beta iota.
    rewrite a2b_loop_data by (apply sextet_3_last, Hb). cbv beta iota.
    rewrite a2b_loop_pad_3.
    rewrite (uchar_eq _ a (octet_1 _ _ Ha Hb)).
    rewrite (octet_2_high _ _ Ha Hb), (octet_2_low_last _ Hb).
    rewrite (uchar_eq _ b (octet_2 _ Hb)).
    rewrite <- app_assoc. reflexivity.
  - pose proof (to_N_lt a) as Ha. pose proof (to_N_lt b) as Hb.
    pose proof (to_N_lt c) as Hc.
    cbn [b2a_base64]. cbv zeta.
    rewrite a2b_loop_data by (apply sextet_1, Ha). cbv beta iota.
    rewrite a2b_loop_data by (apply sextet_2; assumption). cbv beta iota.
    rewrite a2b_loop_data by (apply sextet_3; assumption). cbv beta iota.
    rewrite a2b_loop_data by (apply sextet_4, Hc). cbv beta iota.
    rewrite (uchar_eq _ a (octet_1 _ _ Ha Hb)).
    rewrite (octet_2_high _ _ Ha Hb), (octet_2_low _ _ Hb Hc).
    rewrite (uchar_eq _ b (octet_2 _ Hb)).
    rewrite (uchar_eq _ c (octet_3 _ _ Hb Hc)).
    rewrite IH, <- !app_assoc. reflexivity.
Qed.

Lemma b2a_char (v : N) : (v < 64)%N -> b64_char (b2a v).
Proof. intros H. right. apply b2a_alphabet, H. Qed.

Lemma b2a_base64_chars (data : bytes) : Forall b64_char (b2a_base64 data).
Proof.
  assert (Hpad : b64_char BASE64_PAD) by (left; reflexivity).
  induction data as [|a|a b|a b c data IH] using list_ind3;
    cbn [b2a_base64]; cbv zeta.
  - apply Forall_nil.
  - pose proof (to_N_lt a) as Ha.
    repeat apply Forall_cons; try apply Forall_nil; try exact Hpad;
      apply b2a_char; [apply sextet_1 | apply sextet_2_last]; assumption.
  - pose proof (to_N_lt a) as Ha. pose proof (to_N_lt b) as Hb.
    repeat apply Forall_cons; try apply Forall_nil; try exact Hpad;
      apply b2a_char; [apply sextet_1 | apply sextet_2 | apply sextet_3_last];
      assumption.
  - pose proof (to_N_lt a) as Ha. pose proof (to_N_lt b) as Hb.
    pose proof (to_N_lt c) as Hc.
    apply Forall_cons; [apply b2a_char, sextet_1; assumption|].
    apply Forall_cons; [apply b2a_char, sextet_2; assumption|].
    apply Forall_cons; [apply b2a_char, sextet_3; assumption|].
    apply Forall_cons; [apply b2a_char, sextet_4; assumption|].
    exact IH.
Qed.

Lemma b2a_base64_head (data : bytes) (c : char) (ascii : str) :
  b2a_base64 data = c :: ascii -> N.eqb c BASE64_PAD = false.
Proof.
  destruct data as [|a [|b [|d data]]]; cbn [b2a_base64]; cbv zeta;
    [discriminate | | | ]; intros [= <- _];
    apply b2a_not_pad, sextet_1, to_N_lt.
Qed.

Lemma b2a_base64_length (data : bytes) :
  length (b2a_base64 data) = 4 * ((length data + 2) / 3).
Proof.
  induction data as [|a|a b|a b c data IH] using list_ind3;
    [reflexivity | reflexivity | reflexivity |].
  cbn [b2a_base64]. cbv zeta. cbn [length]. rewrite IH.
  replace (S (S (S (length data))) + 2) with (1 * 3 + (length data + 2)) by lia.
  rewrite Nat.div_add_l by lia. lia.
Qed.

Lemma b64_char_ascii (c : char) : b64_char c -> (c <? 128)%N = true.
Proof.
  intros [->|H]; [reflexivity|].
  assert (E : forallb (fun c => c <? 128)%N BASE64_ALPHABET = true)
    by (vm_compute; reflexivity).
  rewrite forallb_forall in E. apply E, H.
Qed.

End binascii_facts.

Lemma b64decode_b64encode (data : bytes) :
  base64.b64decode (base64.b64encode data) = Ok data.
Proof.
  unfold base64.b64decode, base64.b64encode.
  replace (forallb (fun c => (c <? 128)%N) (binascii.b2a_base64 data)) with true.
  - unfold binascii.a2b_base64.
    destruct (binascii.b2a_base64 data) as [|c ascii] eqn:E.
    + rewrite <- E. apply (binascii_facts.a2b_loop_b2a data []).
    + rewrite (binascii_facts.b2a_base64_head _ _ _ E).
      rewrite <- E. apply (binascii_facts.a2b_loop_b2a data []).
  - symmetry. apply forallb_forall. intros c Hc.
    apply binascii_facts.b64_char_ascii.
    pose proof (binascii_facts.b2a_base64_chars data) as HF.
    rewrite Forall_forall in HF. apply HF, Hc.
Qed.

(** ** The encoder *)

Lemma subseq_nil_l {A} (l : list A) : subseq [] l.
Proof. induction l; constructor; assumption. Qed.

Lemma subseqb_sound (l1 l2 : str) : subseqb l1 l2 = true -> subseq l1 l2.
Proof.
  revert l1; induction l2 as [|y l2 IH]; intros [|x l1]; simpl;
    try discriminate; intros H; try apply subseq_nil_l.
  destruct (N.eqb_spec x y) as [->|_].
  - apply subseq_take, IH, H.
  - apply subseq_skip, IH, H.
Qed.

Lemma subseq_In {A} (l1 l2 : list A) (x : A) :
  subseq l1 l2 -> In x l1 -> In x l2.
Proof.
  induction 1 as [|y l1 l2 _ IH|y l1 l2 _ IH]; simpl; [tauto | auto |].
  intros [->|H]; auto.
Qed.

Lemma subseq_NoDup {A} (l1 l2 : list A) :
  subseq l1 l2 -> NoDup l2 -> NoDup l1.
Proof.
  induction 1 as [|y l1 l2 _ IH|y l1 l2 Hs IH]; intros Hnd.
  - constructor.
  - inversion Hnd; auto.
  - inversion Hnd as [|? ? Hnot Hnd']; subst. constructor; [|auto].
    intros Hin. apply Hnot. eapply subseq_In; eassumption.
Qed.

Lemma HANGUL_BITS_NoDup : NoDup HANGUL_BITS.
Proof.
  repeat (constructor;
          [intros Hin; apply contains_In in Hin; vm_compute in Hin;
           discriminate|]).
  constructor.
Qed.

Lemma present_subseq (idx : nat) :
  idx < 64 -> subseq (present_of idx) HANGUL_BITS.
Proof.
  intros H. apply subseqb_sound. revert idx H.
  apply (below_64 (fun idx => subseqb (present_of idx) HANGUL_BITS)).
  vm_compute. reflexivity.
Qed.

Lemma table_no_symbol (content : str) (c : char) :
  contains HANGUL_BITS c = false ->
  Forall (fun ch => In ch HANGUL_BITS) content -> ~ In c content.
Proof.
  intros Hc HF Hin. rewrite Forall_forall in HF. apply HF in Hin.
  apply contains_In in Hin. congruence.
Qed.

Lemma token_of_token_shape (ch : char) :
  b64_char ch -> token_shape ch (token_of ch).
Proof.
  intros [->|H].
  - exists PADDING_MARKER. split; [reflexivity|]. left. split; reflexivity.
  - destruct (alphabet_index _ H) as (idx & Hidx & Hlt & _).
    pose proof (alphabet_not_pad _ H) as Hne.
    exists (present_of idx). unfold token_of. rewrite Hne, Hidx.
    split; [reflexivity|]. right.
    pose proof (present_subseq _ Hlt) as Hsub.
    repeat split.
    + intros ->. discriminate.
    + exact Hsub.
    + exact (subseq_NoDup _ _ Hsub HANGUL_BITS_NoDup).
    + simpl. rewrite in_app_iff. simpl.
      intros [E|[Hin|[E|[]]]]; try discriminate.
      revert Hin. apply table_no_symbol; [reflexivity|].
      apply present_in_table, Hlt.
Qed.

Lemma encode_tokens_eq (data : bytes) :
  encode_tokens data = Ok (map token_of (base64.b64encode data)).
Proof.
  unfold encode_tokens.
  apply (encode_loop_tokens _ (binascii_facts.b2a_base64_chars data) []).
Qed.

Lemma bytes_to_custom_tokens_eq (data : bytes) :
  bytes_to_custom_tokens data
  = Ok (concat (map token_of (base64.b64encode data))).
Proof. unfold bytes_to_custom_tokens. rewrite encode_tokens_eq. reflexivity. Qed.

Lemma count_start_token (ch : char) :
  b64_char ch -> count_occ N.eq_dec (token_of ch) START_DELIM = 1.
Proof.
  intros [->|H]; [reflexivity|].
  destruct (alphabet_index _ H) as (idx & Hidx & Hlt & _).
  unfold token_of. rewrite (alphabet_not_pad _ H), Hidx.
  cbn [app]. rewrite count_occ_cons_eq by reflexivity.
  rewrite count_occ_app.
  rewrite (proj1 (count_occ_not_In N.eq_dec _ _)).
  - reflexivity.
  - apply table_no_symbol; [reflexivity | apply present_in_table, Hlt].
Qed.

Lemma count_start_tokens (b64 : str) :
  Forall b64_char b64 ->
  count_occ N.eq_dec (concat (map token_of b64)) START_DELIM = length b64.
Proof.
  induction 1 as [|ch b64 Hch _ IH]; [reflexivity|].
  cbn [map concat length].
  rewrite count_occ_app, IH, (count_start_token _ Hch). reflexivity.
Qed.

(** C1. Round trip: for every byte sequence, the empty one included,
    decoding what the encoder returns gives the byte sequence back. *)
Theorem roundtrip (data : bytes) :
  (token_str <- bytes_to_custom_tokens data ;;
   custom_tokens_to_bytes token_str) = Ok data.
Proof.
  rewrite bytes_to_custom_tokens_eq. cbn [bind].
  unfold custom_tokens_to_bytes.
  pose proof (while_loop_tokens _ (binascii_facts.b2a_base64_chars data) [] [])
    as Hloop.
  cbn [app length] in Hloop. fold (base64.b64encode data) in Hloop.
  rewrite Hloop. cbn [bind]. apply b64decode_b64encode.
Qed.

(** C6. Token count: the encoder emits [ceil(len(data) / 3) * 4] tokens, none
    for the empty input, and the returned string holds that many start
    delimiters. *)
Theorem token_count (data : bytes) :
  exists out,
    encode_tokens data = Ok out
    /\ bytes_to_custom_tokens data = Ok (concat out)
    /\ length out = match data with
                    | [] => 0
                    | _ :: _ => ceil_div (length data) 3 * 4
                    end
    /\ count_occ N.eq_dec (concat out) START_DELIM = length out.
Proof.
  exists (map token_of (base64.b64encode data)).
  split; [apply encode_tokens_eq|].
  split; [apply bytes_to_custom_tokens_eq|].
  split.
  - rewrite length_map. unfold base64.b64encode.
    rewrite binascii_facts.b2a_base64_length. unfold ceil_div.
    destruct data; [reflexivity|]. cbn [Nat.sub]. lia.
  - rewrite length_map.
    apply count_start_tokens, binascii_facts.b2a_base64_chars.
Qed.

(** C7. The encoder is total: on every byte sequence it returns a string,
    never an exception, and on the empty sequence the empty string. *)
Theorem encode_total (data : bytes) :
  (exists token_str, bytes_to_custom_tokens data = Ok token_str)
  /\ bytes_to_custom_tokens [] = Ok [].
Proof.
  split; [|reflexivity].
  eexists. apply bytes_to_custom_tokens_eq.
Qed.

(** C8. Token shape: every emitted token is START + content + END; for a
    padding character the content is the padding marker alone, and otherwise
    it is a selection of [HANGUL_BITS] in table order, each symbol at most
    once, and the token holds no padding marker. *)
Theorem emitted_token_shape (data : bytes) :
  exists out,
    encode_tokens data = Ok out
    /\ Forall2 token_shape (base64.b64encode data) out.
Proof.
  exists (map token_of (base64.b64encode data)).
  split; [apply encode_tokens_eq|].
  pose proof (binascii_facts.b2a_base64_chars data) as HF.
  unfold base64.b64encode.
  induction HF as [|ch b64 Hch _ IH]; simpl; constructor.
  - apply token_of_token_shape, Hch.
  - exact IH.
Qed.

(** ** The decoder: the states of the loop *)

Lemma reaches_while_loop (token_str : str) (i : nat) (b64_chars : str) :
  reaches token_str i b64_chars ->
  while_loop token_str 0 [] = while_loop token_str i b64_chars.
Proof.
  induction 1 as [|i b i' b' _ IH Hlt Hbody]; [reflexivity|].
  rewrite IH, (while_loop_eq token_str i b).
  apply Nat.ltb_lt in Hlt. rewrite Hlt, Hbody. reflexivity.
Qed.

Lemma reaches_raise (token_str : str) (i : nat) (b64_chars : str) (e : exn) :
  reaches token_str i b64_chars ->
  i < length token_str ->
  loop_body token_str i b64_chars = Raise e ->
  custom_tokens_to_bytes token_str = Raise e.
Proof.
  intros Hr Hlt Hbody. unfold custom_tokens_to_bytes.
  rewrite (reaches_while_loop _ _ _ Hr), while_loop_eq.
  apply Nat.ltb_lt in Hlt. rewrite Hlt, Hbody. reflexivity.
Qed.

Lemma find_none (s : str) (c : char) (start : nat) :
  find s c start = None <-> ~ In c (skipn start s).
Proof. apply index_from_none. Qed.

Lemma loop_body_records (token_str : str) (i : nat) (b64_chars : str)
    (i' : nat) (b64_chars' : str) :
  loop_body token_str i b64_chars = Ok (i', b64_chars') ->
  exists c, b64_chars' = b64_chars ++ [c] /\ b64_char c.
Proof.
  unfold loop_body.
  destruct (negb _); [discriminate|].
  destruct (find _ _ _); [|discriminate].
  destruct (str_eqb _ _).
  - intros [= _ <-]. exists (chr "="). split; [reflexivity | left; reflexivity].
  - destruct (first_unknown _); [discriminate|].
    destruct (nth_error _ _) as [c|] eqn:E; [|discriminate].
    intros [= _ <-]. exists c. split; [reflexivity|].
    right. eapply nth_error_In. exact E.
Qed.

Lemma loop_body_raises (token_str : str) (i : nat) (b64_chars : str) (e : exn) :
  loop_body token_str i b64_chars = Raise e ->
  e = ValueError_expected_start i
  \/ e = ValueError_missing_end (i + 1)
  \/ exists ch, e = ValueError_unknown_char ch.
Proof.
  unfold loop_body.
  destruct (negb _); [intros [= <-]; auto|].
  destruct (find _ _ _); [|intros [= <-]; auto].
  destruct (str_eqb _ _); [discriminate|].
  destruct (first_unknown _) as [ch|]; [intros [= <-]; eauto|].
  destruct (alphabet_lookup _ (index_of_content_lt
              (slice token_str (i + 1) n))) as (c & -> & _).
  discriminate.
Qed.

Lemma reaches_b64_chars (token_str : str) (i : nat) (b64_chars : str) :
  reaches token_str i b64_chars -> Forall b64_char b64_chars.
Proof.
  induction 1 as [|i b i' b' _ IH _ Hbody]; [constructor|].
  destruct (loop_body_records _ _ _ _ _ Hbody) as (c & -> & Hc).
  apply Forall_app. split; [exact IH | constructor; [exact Hc | constructor]].
Qed.

(** The loop ends: either in a reached state at or past the end of the input,
    or by an exception of the body in a reached state. *)
Lemma while_loop_reaches (token_str : str) (i : nat) (b64_chars : str) :
  reaches token_str i b64_chars ->
  (exists n b64_str,
      reaches token_str n b64_str /\ ~ n < length token_str
      /\ while_loop token_str i b64_chars = Ok b64_str)
  \/ (exists n b e,
      reaches token_str n b /\ n < length token_str
      /\ loop_body token_str n b = Raise e
      /\ while_loop token_str i b64_chars = Raise e).
Proof.
  funelim (while_loop token_str i b64_chars); intros Hr;
    try rewrite <- Heqcall.
  - left. exists i, b64_chars. split; [exact Hr|]. split; [|reflexivity].
    intros Hlt. apply Nat.ltb_lt in Hlt. congruence.
  - match goal with
    | IH : reaches _ _ _ -> _ |- _ => apply IH
    end.
    eapply reaches_iter; [exact Hr | apply Nat.ltb_lt; assumption | assumption].
  - right. exists i, b64_chars, e. split; [exact Hr|].
    split; [apply Nat.ltb_lt; assumption|]. split; [assumption | reflexivity].
Qed.

Lemma a2b_loop_only_base64 (ascii : str) :
  Forall b64_char ascii ->
  forall quad_pos leftchar pads padding_started bin,
    binascii.a2b_loop ascii quad_pos leftchar pads padding_started bin
    <> Raise (binascii_Error Only_base64_data).
Proof.
  induction 1 as [|c ascii Hc _ IH]; intros q lc pads ps bin.
  - destruct q as [|[|q]]; discriminate.
  - cbn [binascii.a2b_loop]. destruct Hc as [->|Hc].
    + change (N.eqb (chr "=") binascii.BASE64_PAD) with true. cbv iota.
      destruct (_ && _); [destruct ascii; discriminate | apply IH].
    + destruct (binascii_facts.alphabet_b2a _ Hc) as (v & Hv & ->).
      rewrite (binascii_facts.b2a_not_pad _ Hv), (binascii_facts.a2b_b2a _ Hv).
      destruct ps; [discriminate|].
      destruct q as [|[|[|q]]]; apply IH.
Qed.

Lemma a2b_loop_raises (ascii : str) :
  forall quad_pos leftchar pads padding_started bin e,
    binascii.a2b_loop ascii quad_pos leftchar pads padding_started bin
    = Raise e ->
    exists be, e = binascii_Error be.
Proof.
  induction ascii as [|x ascii IH]; intros q lc pads ps bin e.
  - destruct q as [|[|q]]; [discriminate | |]; intros [= <-]; eauto.
  - cbn [binascii.a2b_loop]. destruct (N.eqb x binascii.BASE64_PAD).
    + destruct (_ && _); [|apply IH].
      destruct ascii; [discriminate|]. intros [= <-]; eauto.
    + destruct (binascii.table_a2b_base64 x); [|intros [= <-]; eauto].
      destruct ps; [intros [= <-]; eauto|].
      destruct q as [|[|[|q]]]; apply IH.
Qed.

Lemma a2b_base64_raises (ascii : str) (e : exn) :
  binascii.a2b_base64 ascii = Raise e -> exists be, e = binascii_Error be.
Proof.
  unfold binascii.a2b_base64. destruct ascii as [|c rest].
  - discriminate.
  - destruct (N.eqb c binascii.BASE64_PAD).
    + intros [= <-]. eauto.
    + apply a2b_loop_raises.
Qed.

Lemma a2b_base64_only_base64 (ascii : str) :
  Forall b64_char ascii ->
  binascii.a2b_base64 ascii <> Raise (binascii_Error Only_base64_data).
Proof.
  intros HF. unfold binascii.a2b_base64. destruct ascii as [|c rest].
  - discriminate.
  - destruct (N.eqb c binascii.BASE64_PAD); [discriminate|].
    apply a2b_loop_only_base64, HF.
Qed.

Lemma b64decode_b64_chars (b64_str : str) :
  Forall b64_char b64_str ->
  base64.b64decode b64_str = binascii.a2b_base64 b64_str.
Proof.
  intros HF. unfold base64.b64decode.
  replace (forallb (fun c => (c <? 128)%N) b64_str) with true; [reflexivity|].
  symmetry. apply forallb_forall. intros c Hc.
  apply binascii_facts.b64_char_ascii.
  rewrite Forall_forall in HF. apply HF, Hc.
Qed.

Lemma b64decode_raises (b64_str : str) (e : exn) :
  Forall b64_char b64_str ->
  base64.b64decode b64_str = Raise e ->
  exists be, e = binascii_Error be /\ be <> Only_base64_data.
Proof.
  intros HF. rewrite (b64decode_b64_chars _ HF). intros He.
  destruct (a2b_base64_raises _ _ He) as (be & ->).
  exists be. split; [reflexivity|]. intros ->.
  exact (a2b_base64_only_base64 _ HF He).
Qed.

Lemma not_in_table :
  ~ In START_DELIM HANGUL_BITS /\ ~ In END_DELIM HANGUL_BITS
  /\ ~ In (chr "=") HANGUL_BITS.
Proof.
  repeat split; intros H; apply contains_In in H; vm_compute in H;
    discriminate.
Qed.

(** C3. Delimiter errors: at a cursor the loop reaches inside the input, a
    symbol other than the start delimiter raises ValueError, and so does a
    start delimiter with no end delimiter after it; on the empty string the
    loop records nothing and the decoder returns the empty byte sequence. *)
Theorem delimiter_errors (token_str : str) (i : nat) (b64_chars : str) :
  reaches token_str i b64_chars ->
  i < length token_str ->
  (nth i token_str 0%N <> START_DELIM ->
   custom_tokens_to_bytes token_str = Raise (ValueError_expected_start i))
  /\ (nth i token_str 0%N = START_DELIM ->
      ~ In END_DELIM (skipn (i + 1) token_str) ->
      custom_tokens_to_bytes token_str = Raise (ValueError_missing_end (i + 1)))
  /\ while_loop [] 0 [] = Ok []
  /\ custom_tokens_to_bytes [] = Ok [].
Proof.
  intros Hr Hlt. repeat split.
  - intros Hne. apply (reaches_raise _ _ _ _ Hr Hlt).
    unfold loop_body. apply N.eqb_neq in Hne. rewrite Hne. reflexivity.
  - intros Hs Hno. apply (reaches_raise _ _ _ _ Hr Hlt).
    unfold loop_body. rewrite Hs, N.eqb_refl. cbn [negb].
    apply find_none in Hno. rewrite Hno. reflexivity.
Qed.

Lemma delimiter_errors_witness :
  custom_tokens_to_bytes [START_DELIM; END_DELIM; 65%N]
  = Raise (ValueError_expected_start 2)
  /\ custom_tokens_to_bytes [START_DELIM; END_DELIM; START_DELIM; 0xB091%N]
     = Raise (ValueError_missing_end 3).
Proof.
  split.
  - refine (proj1 (delimiter_errors [START_DELIM; END_DELIM; 65%N] 2 [65%N]
                     _ _) _).
    + eapply reaches_iter; [apply reaches_entry | simpl; lia | reflexivity].
    + simpl. lia.
    + vm_compute. discriminate.
  - refine (proj1 (proj2 (delimiter_errors
                     [START_DELIM; END_DELIM; START_DELIM; 0xB091%N] 2 [65%N]
                     _ _)) _ _).
    + eapply reaches_iter; [apply reaches_entry | simpl; lia | reflexivity].
    + simpl. lia.
    + reflexivity.
    + simpl. intros [H|[]]. vm_compute in H. discriminate.
Defined.

(** C4. Content errors: for a token at a reached cursor, a content that is
    exactly the padding marker records '=' without error; any other content
    holding a symbol outside [HANGUL_BITS] raises ValueError for such a
    symbol.  The delimiters and the padding marker are outside the table. *)
Theorem content_errors (token_str : str) (i j : nat) (b64_chars : str) :
  reaches token_str i b64_chars ->
  i < length token_str ->
  nth i token_str 0%N = START_DELIM ->
  find token_str END_DELIM (i + 1) = Some j ->
  (slice token_str (i + 1) j = PADDING_MARKER ->
   loop_body token_str i b64_chars = Ok (j + 1, b64_chars ++ [chr "="]))
  /\ (slice token_str (i + 1) j <> PADDING_MARKER ->
      forall ch, In ch (slice token_str (i + 1) j) -> ~ In ch HANGUL_BITS ->
      exists ch',
        In ch' (slice token_str (i + 1) j) /\ ~ In ch' HANGUL_BITS
        /\ custom_tokens_to_bytes token_str
           = Raise (ValueError_unknown_char ch'))
  /\ ~ In START_DELIM HANGUL_BITS /\ ~ In END_DELIM HANGUL_BITS
  /\ ~ In (chr "=") HANGUL_BITS.
Proof.
  intros Hr Hlt Hs Hj.
  pose proof (loop_body_content token_str i j b64_chars Hs Hj) as Hbody.
  unfold content_char in Hbody.
  split; [|split; [|exact not_in_table]].
  - intros E. rewrite E in Hbody. exact Hbody.
  - intros Hne ch Hin Hnot.
    apply str_eqb_neq in Hne. rewrite Hne in Hbody.
    destruct (first_unknown_exists _ _ Hin Hnot) as (ch' & Hch').
    rewrite Hch' in Hbody. cbn [bind] in Hbody.
    destruct (first_unknown_some _ _ Hch') as [Hin' Hnot'].
    exists ch'. repeat split; try assumption.
    exact (reaches_raise _ _ _ _ Hr Hlt Hbody).
Qed.

Lemma content_errors_witness :
  loop_body [START_DELIM; 61%N; END_DELIM] 0 [] = Ok (3, [61%N])
  /\ exists ch',
       In ch' [0xB091%N; 61%N] /\ ~ In ch' HANGUL_BITS
       /\ custom_tokens_to_bytes [START_DELIM; 0xB091%N; 61%N; END_DELIM]
          = Raise (ValueError_unknown_char ch').
Proof.
  split.
  - refine (proj1 (content_errors [START_DELIM; 61%N; END_DELIM] 0 2 []
                     _ _ _ _) _).
    + apply reaches_entry.
    + simpl. lia.
    + reflexivity.
    + reflexivity.
    + reflexivity.
  - refine (proj1 (proj2 (content_errors
                     [START_DELIM; 0xB091%N; 61%N; END_DELIM] 0 3 []
                     _ _ _ _)) _ 61%N _ _).
    + apply reaches_entry.
    + simpl. lia.
    + reflexivity.
    + reflexivity.
    + vm_compute. discriminate.
    + vm_compute. auto.
    + exact (proj2 (proj2 not_in_table)).
Defined.

(** C5. Index reconstruction: for a token whose content holds only symbols of
    [HANGUL_BITS], the loop records [BASE64_ALPHABET[idx]] where bit [5 - k]
    of [idx] is set exactly when entry [k] of the table occurs in the content;
    [idx] depends only on which symbols occur, not on where or how often, and
    an empty content records 'A'. *)
Theorem content_index (token_str : str) (i j : nat) (b64_chars : str) :
  nth i token_str 0%N = START_DELIM ->
  find token_str END_DELIM (i + 1) = Some j ->
  Forall (fun ch => In ch HANGUL_BITS) (slice token_str (i + 1) j) ->
  (exists c,
      nth_error BASE64_ALPHABET
        (N.to_nat (index_of_content (slice token_str (i + 1) j))) = Some c
      /\ loop_body token_str i b64_chars = Ok (j + 1, b64_chars ++ [c]))
  /\ (forall k, k < 6 ->
      N.testbit (index_of_content (slice token_str (i + 1) j))
                (N.of_nat (5 - k))
      = contains (slice token_str (i + 1) j) (nth k HANGUL_BITS 0%N))
  /\ (index_of_content (slice token_str (i + 1) j) < 64)%N
  /\ (forall content',
      (forall x, In x (slice token_str (i + 1) j) <-> In x content') ->
      index_of_content content'
      = index_of_content (slice token_str (i + 1) j))
  /\ (slice token_str (i + 1) j = [] ->
      loop_body token_str i b64_chars = Ok (j + 1, b64_chars ++ [chr "A"])).
Proof.
  intros Hs Hj HF.
  pose proof (loop_body_content token_str i j b64_chars Hs Hj) as Hbody.
  unfold content_char in Hbody.
  assert (Hne : str_eqb (slice token_str (i + 1) j) PADDING_MARKER = false).
  { apply str_eqb_neq. intros E. rewrite E in HF.
    inversion HF as [|? ? Hin _]; subst.
    exact (proj2 (proj2 not_in_table) Hin). }
  rewrite Hne, (proj2 (first_unknown_none _) HF) in Hbody.
  repeat split.
  - destruct (alphabet_lookup _ (index_of_content_lt
                (slice token_str (i + 1) j))) as (c & Hc & _).
    exists c. split; [exact Hc|]. rewrite Hc in Hbody. exact Hbody.
  - intros k Hk. apply index_of_content_testbit, Hk.
  - apply index_of_content_lt.
  - intros content' Hext. symmetry. apply index_of_content_ext, Hext.
  - intros E. rewrite E in Hbody. exact Hbody.
Qed.

Lemma content_index_witness :
  exists c,
    nth_error BASE64_ALPHABET
      (N.to_nat (index_of_content [0xAC70; 0xB091; 0xAC70]%N)) = Some c
    /\ loop_body [START_DELIM; 0xAC70; 0xB091; 0xAC70; END_DELIM]%N 0 []
       = Ok (5, [c]).
Proof.
  refine (proj1 (content_index
                   [START_DELIM; 0xAC70; 0xB091; 0xAC70; END_DELIM]%N 0 4 []
                   _ _ _)).
  - reflexivity.
  - reflexivity.
  - apply first_unknown_none. reflexivity.
Defined.

Lemma custom_tokens_to_bytes_cases (token_str : str) :
  (exists n b64_str,
      reaches token_str n b64_str
      /\ custom_tokens_to_bytes token_str = base64.b64decode b64_str)
  \/ (exists n b e,
      reaches token_str n b /\ loop_body token_str n b = Raise e
      /\ custom_tokens_to_bytes token_str = Raise e).
Proof.
  unfold custom_tokens_to_bytes.
  destruct (while_loop_reaches token_str 0 [] (reaches_entry token_str))
    as [(n & u & Hr & _ & ->)|(n & b & e & Hr & _ & Hbody & ->)].
  - left. exists n, u. split; [exact Hr | reflexivity].
  - right. exists n, b, e. repeat split; assumption.
Qed.

(** C9. Bounds: the reconstructed index of any content is below 64, so the
    lookup in [BASE64_ALPHABET] succeeds; every character recorded is '=' or
    a member of the alphabet, and the final Base64 decoding never fails for
    an invalid character. *)
Theorem index_in_bounds (token_str : str) (i : nat) (b64_chars content : str) :
  reaches token_str i b64_chars ->
  (index_of_content content < 64)%N
  /\ (exists c,
        nth_error BASE64_ALPHABET (N.to_nat (index_of_content content)) = Some c
        /\ In c BASE64_ALPHABET)
  /\ Forall b64_char b64_chars
  /\ loop_body token_str i b64_chars <> Raise IndexError
  /\ base64.b64decode b64_chars <> Raise (binascii_Error Only_base64_data)
  /\ base64.b64decode b64_chars <> Raise ValueError_not_ascii
  /\ custom_tokens_to_bytes token_str <> Raise (binascii_Error Only_base64_data)
  /\ custom_tokens_to_bytes token_str <> Raise ValueError_not_ascii
  /\ custom_tokens_to_bytes token_str <> Raise IndexError.
Proof.
  intros Hr.
  pose proof (reaches_b64_chars _ _ _ Hr) as HF.
  assert (Hdec : forall u e,
            Forall b64_char u -> base64.b64decode u = Raise e ->
            e <> IndexError /\ e <> binascii_Error Only_base64_data
            /\ e <> ValueError_not_ascii).
  { intros u e Hu He. destruct (b64decode_raises _ _ Hu He) as (be & -> & Hne).
    repeat split; try discriminate. intros [= ->]. apply Hne. reflexivity. }
  assert (Hbody : forall n b e,
            loop_body token_str n b = Raise e ->
            e <> IndexError /\ e <> binascii_Error Only_base64_data
            /\ e <> ValueError_not_ascii).
  { intros n b e He.
    destruct (loop_body_raises _ _ _ _ He) as [->|[->|(ch & ->)]];
      repeat split; discriminate. }
  assert (Hall : forall e,
            custom_tokens_to_bytes token_str = Raise e ->
            e <> IndexError /\ e <> binascii_Error Only_base64_data
            /\ e <> ValueError_not_ascii).
  { intros e He.
    destruct (custom_tokens_to_bytes_cases token_str)
      as [(n & u & Hu & E)|(n & b & e' & _ & Hb & E)].
    - rewrite E in He. exact (Hdec _ _ (reaches_b64_chars _ _ _ Hu) He).
    - rewrite E in He. injection He as <-. exact (Hbody _ _ _ Hb). }
  split; [apply index_of_content_lt|].
  split; [apply alphabet_lookup, index_of_content_lt|].
  split; [exact HF|].
  split; [intros He; exact (proj1 (Hbody _ _ _ He) eq_refl)|].
  split; [intros He; exact (proj1 (proj2 (Hdec _ _ HF He)) eq_refl)|].
  split; [intros He; exact (proj2 (proj2 (Hdec _ _ HF He)) eq_refl)|].
  split; [intros He; exact (proj1 (proj2 (Hall _ He)) eq_refl)|].
  split; [intros He; exact (proj2 (proj2 (Hall _ He)) eq_refl)|].
  intros He; exact (proj1 (Hall _ He) eq_refl).
Qed.

Lemma index_in_bounds_witness :
  (index_of_content [0xAC70; 0xB091; 61]%N < 64)%N
  /\ Forall b64_char [65%N].
Proof.
  pose proof (index_in_bounds [START_DELIM; END_DELIM; 65%N] 2 [65%N]
                [0xAC70; 0xB091; 61]%N) as H.
  refine ((fun H' => conj (proj1 H') (proj1 (proj2 (proj2 H')))) (H _)).
  eapply reaches_iter; [apply reaches_entry | simpl; lia | reflexivity].
Defined.

(** ** The final Base64 decoding in strict mode *)

Module strict_mode.
Import binascii binascii_facts.

Lemma a2b_loop_pad (ascii : str) (quad_pos : nat) (leftchar : N) (pads : nat)
    (padding_started : bool) (bin : bytes) :
  a2b_loop (chr "=" :: ascii) quad_pos leftchar pads padding_started bin
  = if (2 <=? quad_pos) && (4 <=? quad_pos + S pads) then
      match ascii with
      | [] => Ok bin
      | _ :: _ => Raise (binascii_Error Excess_data_after_padding)
      end
    else
      a2b_loop ascii quad_pos leftchar
        (if 2 <=? quad_pos then S pads else pads) true bin.
Proof. reflexivity. Qed.

Lemma a2b_loop_discontinuous (v : N) (ascii : str) (quad_pos : nat)
    (leftchar : N) (pads : nat) (bin : bytes) :
  (v < 64)%N ->
  a2b_loop (b2a v :: ascii) quad_pos leftchar pads true bin
  = Raise (binascii_Error Discontinuous_padding).
Proof.
  intros H. cbn [a2b_loop]. rewrite (b2a_not_pad _ H), (a2b_b2a _ H).
  reflexivity.
Qed.

Lemma split_at_padding (u : str) : u = data_prefix u ++ after_data u.
Proof.
  induction u as [|c u IH]; simpl; [reflexivity|].
  destruct (is_pad c); simpl; [reflexivity | f_equal; exact IH].
Qed.

Lemma data_prefix_alphabet (u : str) :
  Forall b64_char u -> Forall (fun c => In c BASE64_ALPHABET) (data_prefix u).
Proof.
  induction 1 as [|c u Hc _ IH]; simpl; [constructor|].
  destruct (is_pad c) eqn:E; [constructor|].
  constructor; [|exact IH].
  destruct Hc as [->|Hc]; [discriminate | exact Hc].
Qed.

Lemma after_data_b64 (u : str) :
  Forall b64_char u -> Forall b64_char (after_data u).
Proof.
  induction 1 as [|c u Hc HF IH]; simpl; [constructor|].
  destruct (is_pad c); [constructor; assumption | exact IH].
Qed.

Lemma after_data_head (u : str) :
  after_data u = [] \/ exists r, after_data u = chr "=" :: r.
Proof.
  induction u as [|c u IH]; simpl; [left; reflexivity|].
  destruct (is_pad c) eqn:E; [|exact IH].
  right. exists u. apply N.eqb_eq in E. subst. reflexivity.
Qed.

(** Reading data characters moves [quad_pos] round the quad. *)
Lemma data_run (d : str) :
  Forall (fun c => In c BASE64_ALPHABET) d ->
  forall r quad_pos leftchar bin,
    quad_pos < 4 ->
    exists leftchar' bin',
      a2b_loop (d ++ r) quad_pos leftchar 0 false bin
      = a2b_loop r ((quad_pos + length d) mod 4) leftchar' 0 false bin'.
Proof.
  induction 1 as [|c d Hc _ IH]; intros r q lc bin Hq.
  - exists lc, bin. cbn [app length].
    rewrite Nat.add_0_r, Nat.mod_small by exact Hq. reflexivity.
  - destruct (alphabet_b2a _ Hc) as (v & Hv & ->).
    cbn [app length]. rewrite (a2b_loop_data _ _ _ _ _ _ Hv).
    destruct q as [|[|[|[|q]]]]; try lia.
    + destruct (IH r 1 v bin ltac:(lia)) as (lc' & bin' & ->).
      exists lc', bin'.
      apply (f_equal (fun k => a2b_loop r (k mod 4) lc' 0 false bin')). lia.
    + destruct (IH r 2 (N.land v 15)
                  (bin ++ [uchar (N.lor (N.shiftl lc 2) (N.shiftr v 4))])
                  ltac:(lia)) as (lc' & bin' & ->).
      exists lc', bin'.
      apply (f_equal (fun k => a2b_loop r (k mod 4) lc' 0 false bin')). lia.
    + destruct (IH r 3 (N.land v 3)
                  (bin ++ [uchar (N.lor (N.shiftl lc 4) (N.shiftr v 2))])
                  ltac:(lia)) as (lc' & bin' & ->).
      exists lc', bin'.
      apply (f_equal (fun k => a2b_loop r (k mod 4) lc' 0 false bin')). lia.
    + destruct (IH r 0 0%N
                  (bin ++ [uchar (N.lor (N.shiftl lc 6) v)])
                  ltac:(lia)) as (lc' & bin' & ->).
      exists lc', bin'.
      replace (3 + S (length d)) with (0 + length d + 1 * 4) by lia.
      rewrite Nat.Div0.mod_add. reflexivity.
Qed.

(** Once padding has started before the second character of a quad, only
    padding may follow, and only a complete quad is accepted. *)
Lemma pad_run_started (r : str) :
  Forall b64_char r ->
  forall quad_pos leftchar pads bin,
    quad_pos < 2 ->
    is_ok (a2b_loop r quad_pos leftchar pads true bin)
    = forallb is_pad r && (quad_pos =? 0).
Proof.
  induction 1 as [|c r Hc _ IH]; intros q lc pads bin Hq.
  - destruct q as [|[|q]]; [reflexivity | reflexivity | lia].
  - destruct Hc as [->|Hc].
    + rewrite a2b_loop_pad.
      replace (2 <=? q) with false by (symmetry; apply Nat.leb_gt; exact Hq).
      cbn [andb forallb]. rewrite (IH _ _ _ _ Hq). reflexivity.
    + destruct (alphabet_b2a _ Hc) as (v & Hv & ->).
      rewrite (a2b_loop_discontinuous _ _ _ _ _ _ Hv).
      cbn [forallb]. unfold is_pad at 1.
      change (chr "=") with BASE64_PAD. rewrite (b2a_not_pad _ Hv).
      reflexivity.
Qed.

(** What is accepted after the data characters. *)
Lemma pad_tail (r : str) :
  Forall b64_char r ->
  r = [] \/ (exists r', r = chr "=" :: r') ->
  forall quad_pos leftchar bin,
    quad_pos < 4 ->
    is_ok (a2b_loop r quad_pos leftchar 0 false bin)
    = forallb is_pad r
      && match quad_pos with
         | 0 => true
         | 1 => false
         | 2 => length r =? 2
         | _ => length r =? 1
         end.
Proof.
  intros HF [->|(r' & ->)] q lc bin Hq.
  - destruct q as [|[|[|q]]]; reflexivity.
  - inversion HF as [|? ? _ HF']; subst. rewrite a2b_loop_pad.
    destruct q as [|[|[|[|q]]]]; try lia.
    + cbn [Nat.leb andb]. rewrite pad_run_started by (assumption || lia).
      cbn [forallb Nat.eqb]. change (is_pad (chr "=")) with true.
      cbn [andb]. reflexivity.
    + cbn [Nat.leb andb]. rewrite pad_run_started by (assumption || lia).
      cbn [forallb Nat.eqb]. rewrite !andb_false_r. reflexivity.
    + change ((2 <=? 2) && (4 <=? 2 + 1)) with false. cbv iota.
      change (2 <=? 2) with true. cbv iota.
      destruct HF' as [|c r'' Hc HF'']; [reflexivity|].
      destruct Hc as [->|Hc].
      * rewrite a2b_loop_pad.
        change ((2 <=? 2) && (4 <=? 2 + 2)) with true. cbv iota.
        destruct r'' as [|x r'']; [reflexivity|].
        cbn [length Nat.eqb]. rewrite andb_false_r. reflexivity.
      * destruct (alphabet_b2a _ Hc) as (v & Hv & ->).
        rewrite (a2b_loop_discontinuous _ _ _ _ _ _ Hv).
        cbn [forallb]. change (is_pad (chr "=")) with true.
        unfold is_pad at 1. change (chr "=") with BASE64_PAD.
        rewrite (b2a_not_pad _ Hv). reflexivity.
    + change ((2 <=? 3) && (4 <=? 3 + 1)) with true. cbv iota.
      destruct r' as [|x r']; [reflexivity|].
      cbn [length Nat.eqb]. rewrite andb_false_r. reflexivity.
Qed.

(** The strings of Base64 characters that strict mode accepts. *)
Lemma a2b_base64_accepts (u : str) :
  Forall b64_char u ->
  is_ok (a2b_base64 u) = strictly_valid u || quads_then_padding u.
Proof.
  intros HF.
  pose proof (data_prefix_alphabet u HF) as Hd.
  pose proof (after_data_b64 u HF) as Hr.
  pose proof (after_data_head u) as Hhead.
  assert (Hall : forallb (contains BASE64_ALPHABET) (data_prefix u) = true).
  { apply forallb_forall. intros c Hc. rewrite Forall_forall in Hd.
    apply contains_In, Hd, Hc. }
  unfold strictly_valid, quads_then_padding. rewrite Hall, !andb_true_r.
  rewrite (split_at_padding u) at 1 2. rewrite length_app.
  destruct (data_prefix u) as [|c d] eqn:Ed.
  - (* no data character: the empty string, or leading padding *)
    cbn [app length Nat.add Nat.ltb Nat.leb andb]. rewrite orb_false_r.
    destruct Hhead as [->|(r & ->)]; [reflexivity|].
    unfold a2b_base64.
    change (N.eqb (chr "=") BASE64_PAD) with true. cbv iota.
    cbn [length]. destruct r as [|x [|y r]]; try reflexivity.
    cbn [Nat.leb]. rewrite !andb_false_r. reflexivity.
  - inversion Hd as [|? ? Hc Hd']; subst.
    destruct (alphabet_b2a _ Hc) as (v & Hv & ->).
    unfold a2b_base64. cbn [app]. rewrite (b2a_not_pad _ Hv).
    change (b2a v :: d ++ after_data u) with ((b2a v :: d) ++ after_data u).
    destruct (data_run (b2a v :: d) Hd (after_data u) 0 0%N [] ltac:(lia))
      as (lc' & bin' & ->).
    rewrite (pad_tail _ Hr Hhead) by (apply Nat.mod_upper_bound; lia).
    cbn [Nat.add].
    set (n := length (b2a v :: d)).
    set (m := length (after_data u)).
    assert (Hn : 0 < n) by (unfold n; simpl; lia).
    replace (0 <? n) with true by (symmetry; apply Nat.ltb_lt; exact Hn).
    rewrite <- (Nat.Div0.add_mod_idemp_l n m 4).
    pose proof (Nat.mod_upper_bound n 4 ltac:(lia)) as Ht.
    destruct (forallb is_pad (after_data u)); [|rewrite !andb_false_r; reflexivity].
    cbn [andb]. rewrite !andb_true_r.
    destruct (n mod 4) as [|[|[|[|t]]]]; try lia;
      destruct m as [|[|[|m]]]; try reflexivity.
    all: cbn [Nat.leb Nat.ltb]; rewrite ?andb_false_r; reflexivity.
Qed.

End strict_mode.

Lemma while_loop_b64_chars (token_str b64_str : str) :
  while_loop token_str 0 [] = Ok b64_str -> Forall b64_char b64_str.
Proof.
  intros H.
  destruct (while_loop_reaches token_str 0 [] (reaches_entry token_str))
    as [(n & u & Hr & _ & E)|(n & b & e & _ & _ & _ & E)];
    rewrite E in H; [|discriminate].
  injection H as <-. exact (reaches_b64_chars _ _ _ Hr).
Qed.


Lemma a2b_loop_started (ascii : str) :
  forall quad_pos leftchar pads bin data,
    binascii.a2b_loop ascii quad_pos leftchar pads true bin = Ok data ->
    data = bin.
Proof.
  induction ascii as [|c ascii IH]; intros q lc pads bin data.
  - destruct q as [|[|q]]; [intros [= <-]; reflexivity | discriminate
                           | discriminate].
  - cbn [binascii.a2b_loop]. destruct (N.eqb c binascii.BASE64_PAD).
    + destruct (_ && _); [|apply IH].
      destruct ascii; [intros [= <-]; reflexivity | discriminate].
    + destruct (binascii.table_a2b_base64 c); discriminate.
Qed.

Lemma a2b_loop_tail (r : str) (quad_pos : nat) (leftchar : N)
    (bin data : bytes) :
  r = [] \/ (exists r', r = chr "=" :: r') ->
  binascii.a2b_loop r quad_pos leftchar 0 false bin = Ok data ->
  data = bin /\ quad_pos <> 1.
Proof.
  intros [->|(r' & ->)].
  - destruct quad_pos as [|[|q]]; [intros [= <-]; split; [reflexivity | lia]
                                  | discriminate | discriminate].
  - rewrite strict_mode.a2b_loop_pad.
    destruct (_ && _) eqn:Ec.
    + destruct r'; [|discriminate]. intros [= <-]. split; [reflexivity|].
      intros ->. discriminate.
    + intros H. split; [exact (a2b_loop_started _ _ _ _ _ _ H)|].
      intros ->. cbn [Nat.leb] in H.
      revert H. generalize 0 at 2. generalize bin. clear.
      induction r' as [|c r IH]; intros bin pads; [discriminate|].
      cbn [binascii.a2b_loop]. destruct (N.eqb c binascii.BASE64_PAD).
      * cbn [Nat.leb andb]. apply IH.
      * destruct (binascii.table_a2b_base64 c); discriminate.
Qed.

















(** * Further properties of the two functions *)

(** ** Streams of tokens *)

Lemma decodes_to_content_char (content : str) (c : char) :
  decodes_to content c <-> content_char content = Ok c.
Proof.
  unfold decodes_to, content_char. split.
  - intros [[-> ->]|[HF Hc]]; [reflexivity|].
    replace (str_eqb content PADDING_MARKER) with false.
    + rewrite (proj2 (first_unknown_none _) HF), Hc. reflexivity.
    + symmetry. apply str_eqb_neq. intros E. rewrite E in HF.
      inversion HF as [|? ? Hin _]; subst.
      exact (proj2 (proj2 not_in_table) Hin).
  - destruct (str_eqb content PADDING_MARKER) eqn:E.
    + apply str_eqb_eq in E. intros [= <-]. left. split; [exact E | reflexivity].
    + destruct (first_unknown content) eqn:Eu; [discriminate|].
      apply first_unknown_none in Eu.
      destruct (nth_error _ _) as [c'|] eqn:En; [|discriminate].
      intros [= <-]. right. split; [exact Eu | reflexivity].
Qed.

Lemma decodes_to_no_end (content : str) (c : char) :
  decodes_to content c -> ~ In END_DELIM content.
Proof.
  intros [[-> _]|[HF _]].
  - intros Hin. apply contains_In in Hin. vm_compute in Hin. discriminate.
  - apply table_no_end, HF.
Qed.

Lemma decodes_to_b64_char (content : str) (c : char) :
  decodes_to content c -> b64_char c.
Proof.
  intros [[_ ->]|[_ Hc]]; [left; reflexivity|].
  right. eapply nth_error_In. exact Hc.
Qed.

Lemma stream_cons (content : str) (contents : list str) :
  stream (content :: contents) = token content ++ stream contents.
Proof. reflexivity. Qed.

Lemma stream_app (cs1 cs2 : list str) :
  stream (cs1 ++ cs2) = stream cs1 ++ stream cs2.
Proof. unfold stream. rewrite map_app, concat_app. reflexivity. Qed.

Lemma token_length (content : str) : length (token content) = length content + 2.
Proof. unfold token. cbn [app length]. rewrite length_app. simpl. lia. Qed.

Lemma while_loop_stream (contents : list str) (u : str) :
  Forall2 decodes_to contents u ->
  forall pre b64_chars,
    while_loop (pre ++ stream contents) (length pre) b64_chars
    = Ok (b64_chars ++ u).
Proof.
  induction 1 as [|content c contents u Hc _ IH]; intros pre b.
  - rewrite while_loop_eq. cbn [stream map concat]. rewrite !app_nil_r.
    rewrite Nat.ltb_irrefl. reflexivity.
  - rewrite while_loop_eq, stream_cons.
    replace (length pre <? length (pre ++ token content ++ stream contents))
      with true
      by (symmetry; apply Nat.ltb_lt; rewrite !length_app, token_length; lia).
    pose proof (loop_body_token pre content (stream contents) b
                  (decodes_to_no_end _ _ Hc)) as Hbody.
    rewrite (proj1 (decodes_to_content_char _ _) Hc) in Hbody.
    cbn [bind] in Hbody.
    replace (pre ++ token content ++ stream contents)
      with (pre ++ START_DELIM :: content ++ END_DELIM :: stream contents)
      by (unfold token; cbn [app]; rewrite <- app_assoc; reflexivity).
    rewrite Hbody.
    replace (pre ++ START_DELIM :: content ++ END_DELIM :: stream contents)
      with ((pre ++ token content) ++ stream contents)
      by (unfold token; cbn [app]; rewrite <- !app_assoc; cbn [app];
          rewrite <- app_assoc; reflexivity).
    replace (length pre + length content + 2) with (length (pre ++ token content))
      by (rewrite length_app, token_length; lia).
    rewrite IH, <- app_assoc. reflexivity.
Qed.

Lemma skipn_nth_cons {A} (l : list A) (i : nat) (d : A) :
  i < length l -> skipn i l = nth i l d :: skipn (S i) l.
Proof.
  revert i; induction l as [|x l IH]; intros i Hi; simpl in Hi; [lia|].
  destruct i as [|i]; [reflexivity|].
  cbn [skipn nth]. apply IH. lia.
Qed.

Lemma firstn_app_exact {A} (a b : list A) : firstn (length a) (a ++ b) = a.
Proof.
  rewrite firstn_app, Nat.sub_diag, firstn_all. cbn [firstn].
  apply app_nil_r.
Qed.

(** One successful iteration consumes exactly one token. *)
Lemma loop_body_consumes (token_str : str) (i : nat) (b64_chars : str)
    (i' : nat) (b64_chars' : str) :
  i < length token_str ->
  loop_body token_str i b64_chars = Ok (i', b64_chars') ->
  exists content c,
    decodes_to content c
    /\ b64_chars' = b64_chars ++ [c]
    /\ i' = i + length content + 2
    /\ i' <= length token_str
    /\ nth i token_str 0%N = START_DELIM
    /\ find token_str END_DELIM (i + 1) = Some (i + 1 + length content)
    /\ slice token_str (i + 1) (i + 1 + length content) = content
    /\ firstn i' token_str = firstn i token_str ++ token content.
Proof.
  intros Hlt Hbody.
  destruct (N.eqb_spec (nth i token_str 0%N) START_DELIM) as [Hs|Hs];
    [|unfold loop_body in Hbody; apply N.eqb_neq in Hs; rewrite Hs in Hbody;
      discriminate].
  destruct (find token_str END_DELIM (i + 1)) as [j|] eqn:Hj;
    [|unfold loop_body in Hbody; rewrite Hs, N.eqb_refl, Hj in Hbody;
      discriminate].
  rewrite (loop_body_content _ _ _ _ Hs Hj) in Hbody.
  pose proof Hj as Hj'. unfold find in Hj'.
  destruct (index_from_some _ _ _ _ Hj') as (content & rest & Hskip & Hno & ->).
  assert (Hslice : slice token_str (i + 1) (i + 1 + length content) = content).
  { unfold slice. rewrite Hskip.
    replace (i + 1 + length content - (i + 1)) with (length content) by lia.
    apply firstn_app_exact. }
  rewrite Hslice in Hbody.
  destruct (content_char content) as [c|e] eqn:Hc; [|discriminate].
  cbn [bind] in Hbody. injection Hbody as <- <-.
  assert (Et : token_str
               = (firstn i token_str ++ token content) ++ rest).
  { rewrite <- (firstn_skipn i token_str) at 1.
    rewrite (skipn_nth_cons token_str i 0%N Hlt), Hs.
    replace (S i) with (i + 1) by lia. rewrite Hskip.
    unfold token. cbn [app]. rewrite <- !app_assoc. cbn [app].
    rewrite <- app_assoc. reflexivity. }
  assert (Hlen : length (firstn i token_str ++ token content)
                 = i + 1 + length content + 1).
  { rewrite length_app, token_length, firstn_length_le by lia. lia. }
  exists content, c.
  split; [apply decodes_to_content_char, Hc|].
  split; [reflexivity|]. split; [lia|].
  split.
  - pose proof (f_equal (@length N) Et) as Htl.
    rewrite length_app, Hlen in Htl. lia.
  - split; [exact Hs|]. split; [reflexivity|]. split; [exact Hslice|].
    remember (firstn i token_str ++ token content) as p eqn:Ep.
    rewrite Et, <- Hlen. apply firstn_app_exact.
Qed.

Lemma reaches_prefix (token_str : str) (i : nat) (b64_chars : str) :
  reaches token_str i b64_chars ->
  i <= length token_str
  /\ 2 * length b64_chars <= i
  /\ exists contents,
       firstn i token_str = stream contents
       /\ Forall2 decodes_to contents b64_chars.
Proof.
  induction 1 as [|i b i' b' _ IH Hlt Hbody].
  - split; [lia|]. split; [simpl; lia|].
    exists []. split; [reflexivity | constructor].
  - destruct IH as (_ & Hb & contents & Hpre & HF).
    destruct (loop_body_consumes _ _ _ _ _ Hlt Hbody)
      as (content & c & Hc & -> & -> & Hle & _ & _ & _ & Hfirst).
    split; [exact Hle|]. split; [rewrite length_app; simpl; lia|].
    exists (contents ++ [content]). split.
    + rewrite Hfirst, Hpre, stream_app. unfold stream at 3.
      cbn [map concat]. rewrite app_nil_r. reflexivity.
    + apply Forall2_app; [exact HF | constructor; [exact Hc | constructor]].
Qed.

Lemma while_loop_ok_stream (token_str b64_str : str) :
  while_loop token_str 0 [] = Ok b64_str ->
  exists contents,
    token_str = stream contents /\ Forall2 decodes_to contents b64_str.
Proof.
  intros H.
  destruct (while_loop_reaches token_str 0 [] (reaches_entry token_str))
    as [(n & u & Hr & Hge & E)|(n & b & e & _ & _ & _ & E)];
    rewrite E in H; [|discriminate].
  injection H as <-.
  destruct (reaches_prefix _ _ _ Hr) as (Hle & _ & contents & Hpre & HF).
  exists contents. split; [|exact HF].
  rewrite <- Hpre. symmetry. apply firstn_all2. lia.
Qed.

Lemma custom_tokens_to_bytes_stream (contents : list str) (u : str) :
  Forall2 decodes_to contents u ->
  custom_tokens_to_bytes (stream contents) = base64.b64decode u.
Proof.
  intros HF. unfold custom_tokens_to_bytes.
  pose proof (while_loop_stream contents u HF [] []) as H.
  cbn [app length] in H. rewrite H. reflexivity.
Qed.

(** X1. Loop invariant: whenever the loop test is evaluated, the cursor is
    within the input, the symbols before it are a sequence of tokens the loop
    accepts, [b64_chars] holds one character per token, in order, and each
    token has consumed at least two symbols. *)
Theorem loop_invariant (token_str : str) (i : nat) (b64_chars : str) :
  reaches token_str i b64_chars ->
  i <= length token_str
  /\ 2 * length b64_chars <= i
  /\ exists contents,
       firstn i token_str = stream contents
       /\ Forall2 decodes_to contents b64_chars.
Proof. apply reaches_prefix. Qed.

Lemma loop_invariant_witness :
  2 <= length [START_DELIM; END_DELIM; 65%N]
  /\ 2 * length [65%N] <= 2
  /\ exists contents,
       firstn 2 [START_DELIM; END_DELIM; 65%N] = stream contents
       /\ Forall2 decodes_to contents [65%N].
Proof.
  apply (loop_invariant [START_DELIM; END_DELIM; 65%N] 2 [65%N]).
  eapply reaches_iter; [apply reaches_entry | simpl; lia | reflexivity].
Defined.

(** X2. The scan accepts exactly the wire grammar [Stream := Token*]: the
    loop ends normally with [b64_str] if and only if the input is a
    concatenation of tokens START + content + END, each content being the
    padding marker or made of table symbols, and [b64_str] holds the
    character of each token in order. *)
Theorem scan_grammar (token_str b64_str : str) :
  while_loop token_str 0 [] = Ok b64_str
  <-> exists contents,
        token_str = stream contents /\ Forall2 decodes_to contents b64_str.
Proof.
  split.
  - apply while_loop_ok_stream.
  - intros (contents & -> & HF).
    exact (while_loop_stream contents b64_str HF [] []).
Qed.

Lemma decodes_to_total (content : str) :
  content = PADDING_MARKER \/ Forall (fun ch => In ch HANGUL_BITS) content ->
  exists c, decodes_to content c.
Proof.
  intros [->|HF].
  - exists (chr "="). left. split; reflexivity.
  - destruct (alphabet_lookup _ (index_of_content_lt content)) as (c & Hc & _).
    exists c. right. split; assumption.
Qed.

Lemma decodes_to_same_symbols (c1 c2 : str) (c : char) :
  Forall (fun ch => In ch HANGUL_BITS) c1 ->
  Forall (fun ch => In ch HANGUL_BITS) c2 ->
  (forall x, In x c1 <-> In x c2) ->
  decodes_to c1 c -> decodes_to c2 c.
Proof.
  intros H1 H2 Hext [[-> _]|[_ Hc]].
  - exfalso. inversion H1 as [|? ? Hin _]; subst.
    exact (proj2 (proj2 not_in_table) Hin).
  - right. split; [exact H2|].
    rewrite <- (index_of_content_ext c1 c2 Hext). exact Hc.
Qed.

(** X3. Leniency of the decoder: the result depends on a token only through
    the set of its symbols.  Two streams whose tokens are pairwise both the
    padding token, or both made of table symbols with the same symbols
    occurring (in any order, any number of times), decode to the same
    outcome. *)
Theorem decode_symbol_sets (contents1 contents2 : list str) :
  Forall2
    (fun c1 c2 =>
       (c1 = PADDING_MARKER /\ c2 = PADDING_MARKER)
       \/ (Forall (fun ch => In ch HANGUL_BITS) c1
           /\ Forall (fun ch => In ch HANGUL_BITS) c2
           /\ forall x, In x c1 <-> In x c2))
    contents1 contents2 ->
  custom_tokens_to_bytes (stream contents1)
  = custom_tokens_to_bytes (stream contents2).
Proof.
  intros H.
  assert (Hu : exists u, Forall2 decodes_to contents1 u
                         /\ Forall2 decodes_to contents2 u).
  { induction H as [|c1 c2 cs1 cs2 Hc _ (u & Hu1 & Hu2)].
    - exists []. split; constructor.
    - destruct Hc as [[-> ->]|(H1 & H2 & Hext)].
      + exists (chr "=" :: u).
        split; constructor; try assumption; left; split; reflexivity.
      + destruct (decodes_to_total c1 (or_intror H1)) as (c & Hc).
        exists (c :: u). split; constructor; try assumption.
        exact (decodes_to_same_symbols _ _ _ H1 H2 Hext Hc). }
  destruct Hu as (u & Hu1 & Hu2).
  rewrite (custom_tokens_to_bytes_stream _ _ Hu1).
  rewrite (custom_tokens_to_bytes_stream _ _ Hu2). reflexivity.
Qed.

Lemma decode_symbol_sets_witness :
  custom_tokens_to_bytes (stream [[0xAC70; 0xB091]; [0xB091]; [61]; [61]]%N)
  = custom_tokens_to_bytes
      (stream [[0xB091; 0xAC70; 0xB091]; [0xB091; 0xB091]; [61]; [61]]%N).
Proof.
  apply decode_symbol_sets.
  repeat (apply Forall2_cons || apply Forall2_nil).
  - right. split; [apply first_unknown_none; reflexivity|].
    split; [apply first_unknown_none; reflexivity|].
    intros x. simpl. tauto.
  - right. split; [apply first_unknown_none; reflexivity|].
    split; [apply first_unknown_none; reflexivity|].
    intros x. simpl. tauto.
  - left. split; reflexivity.
  - left. split; reflexivity.
Defined.

Lemma stream_reserved (contents : list str) (u : str) :
  Forall2 decodes_to contents u -> Forall reserved (stream contents).
Proof.
  induction 1 as [|content c contents u Hc _ IH]; [constructor|].
  rewrite stream_cons. apply Forall_app. split; [|exact IH].
  unfold token. cbn [app]. constructor; [left; reflexivity|].
  apply Forall_app. split.
  - destruct Hc as [[-> _]|[HF _]].
    + constructor; [|constructor]. right; right; left. reflexivity.
    + apply Forall_forall. intros x Hx. rewrite Forall_forall in HF.
      right; right; right. apply HF, Hx.
  - constructor; [|constructor]. right; left. reflexivity.
Qed.

(** X4. A string holding any symbol outside the nine reserved ones is
    rejected, and rejected by the scan itself: the decoder raises one of the
    three ValueErrors of the loop, before any Base64 decoding. *)
Theorem foreign_symbol_rejected (token_str : str) (c : char) :
  In c token_str ->
  ~ reserved c ->
  exists e,
    custom_tokens_to_bytes token_str = Raise e
    /\ ((exists i, e = ValueError_expected_start i)
        \/ (exists i, e = ValueError_missing_end i)
        \/ (exists ch, e = ValueError_unknown_char ch)).
Proof.
  intros Hin Hnot. unfold custom_tokens_to_bytes.
  destruct (while_loop_reaches token_str 0 [] (reaches_entry token_str))
    as [(n & u & _ & _ & E)|(n & b & e & _ & _ & Hbody & E)].
  - exfalso. destruct (while_loop_ok_stream _ _ E) as (contents & -> & HF).
    pose proof (stream_reserved _ _ HF) as Hres.
    rewrite Forall_forall in Hres. exact (Hnot (Hres _ Hin)).
  - rewrite E. exists e. split; [reflexivity|].
    destruct (loop_body_raises _ _ _ _ Hbody) as [->|[->|(ch & ->)]]; eauto.
Qed.

Lemma foreign_symbol_rejected_witness :
  exists e,
    custom_tokens_to_bytes [START_DELIM; 0xB091%N; END_DELIM; 10%N] = Raise e
    /\ ((exists i, e = ValueError_expected_start i)
        \/ (exists i, e = ValueError_missing_end i)
        \/ (exists ch, e = ValueError_unknown_char ch)).
Proof.
  apply (foreign_symbol_rejected [START_DELIM; 0xB091%N; END_DELIM; 10%N] 10%N).
  - simpl. auto.
  - unfold reserved. simpl. intros [H|[H|[H|H]]]; try discriminate.
    repeat (destruct H as [H|H]; [discriminate|]). exact H.
Defined.

(** X5. Every exception of the decoder tells the truth about the input.
    "Expected start delimiter" at [i]: the symbols before [i] are well-formed
    tokens and the symbol at [i] is not START.  "Missing end delimiter" after
    [i]: a START stands at [i - 1] after well-formed tokens and no END
    follows.  "Unknown token character" [ch]: [ch] is the first symbol outside
    the table in the content of a token that follows well-formed tokens and is
    not the padding token.  A [binascii.Error]: the whole input is a
    well-formed token stream and the error is that of its Base64 text.  No
    other exception is raised. *)
Theorem raised_error_sound (token_str : str) (e : exn) :
  custom_tokens_to_bytes token_str = Raise e ->
  match e with
  | ValueError_expected_start i =>
      i < length token_str
      /\ nth i token_str 0%N <> START_DELIM
      /\ well_formed_prefix token_str i
  | ValueError_missing_end i =>
      0 < i
      /\ i - 1 < length token_str
      /\ nth (i - 1) token_str 0%N = START_DELIM
      /\ ~ In END_DELIM (skipn i token_str)
      /\ well_formed_prefix token_str (i - 1)
  | ValueError_unknown_char ch =>
      ~ In ch HANGUL_BITS
      /\ exists i j,
           well_formed_prefix token_str i
           /\ i < length token_str
           /\ nth i token_str 0%N = START_DELIM
           /\ find token_str END_DELIM (i + 1) = Some j
           /\ slice token_str (i + 1) j <> PADDING_MARKER
           /\ first_unknown (slice token_str (i + 1) j) = Some ch
  | binascii_Error be =>
      be <> Only_base64_data
      /\ exists contents b64_str,
           token_str = stream contents
           /\ Forall2 decodes_to contents b64_str
           /\ base64.b64decode b64_str = Raise (binascii_Error be)
  | _ => False
  end.
Proof.
  unfold custom_tokens_to_bytes.
  destruct (while_loop_reaches token_str 0 [] (reaches_entry token_str))
    as [(n & u & Hr & _ & E)|(n & b & e' & Hr & Hlt & Hbody & E)];
    rewrite E; cbn [bind].
  - intros He.
    destruct (b64decode_raises _ _ (reaches_b64_chars _ _ _ Hr) He)
      as (be & -> & Hne).
    split; [exact Hne|].
    destruct (while_loop_ok_stream _ _ E) as (contents & Ht & HF).
    exists contents, u. repeat split; assumption.
  - intros [= <-].
    destruct (reaches_prefix _ _ _ Hr) as (_ & _ & contents & Hpre & HF).
    assert (Hwf : well_formed_prefix token_str n)
      by (exists contents, b; split; assumption).
    destruct (N.eqb_spec (nth n token_str 0%N) START_DELIM) as [Hs|Hs].
    + destruct (find token_str END_DELIM (n + 1)) as [j|] eqn:Hj.
      * rewrite (loop_body_content _ _ _ _ Hs Hj) in Hbody.
        unfold content_char in Hbody.
        destruct (str_eqb _ _) eqn:Ep; [discriminate|].
        destruct (first_unknown _) as [ch|] eqn:Eu.
        -- cbn [bind] in Hbody. injection Hbody as <-.
           split; [exact (proj2 (first_unknown_some _ _ Eu))|].
           exists n, j. repeat split; try assumption.
           apply str_eqb_neq, Ep.
        -- destruct (alphabet_lookup _ (index_of_content_lt
                       (slice token_str (n + 1) j))) as (c & Hc & _).
           rewrite Hc in Hbody. discriminate.
      * unfold loop_body in Hbody. rewrite Hs, N.eqb_refl, Hj in Hbody.
        cbn [negb] in Hbody. injection Hbody as <-.
        replace (n + 1 - 1) with n by lia.
        repeat split; try assumption; try lia.
        apply find_none, Hj.
    + unfold loop_body in Hbody. apply N.eqb_neq in Hs. rewrite Hs in Hbody.
      cbn [negb] in Hbody. injection Hbody as <-.
      apply N.eqb_neq in Hs. repeat split; assumption.
Qed.

Lemma raised_error_sound_witness :
  2 < length [START_DELIM; END_DELIM; 65%N]
  /\ nth 2 [START_DELIM; END_DELIM; 65%N] 0%N <> START_DELIM
  /\ well_formed_prefix [START_DELIM; END_DELIM; 65%N] 2.
Proof.
  apply (raised_error_sound [START_DELIM; END_DELIM; 65%N]
           (ValueError_expected_start 2)).
  reflexivity.
Defined.

(** ** The encoder, further *)

Lemma token_of_token (ch : char) :
  b64_char ch -> exists content, token_of ch = token content /\ decodes_to content ch.
Proof.
  intros H. destruct (token_of_shape _ H) as (content & E & _ & Hc).
  exists content. split; [exact E|]. apply decodes_to_content_char, Hc.
Qed.

Lemma tokens_stream (b64 : str) :
  Forall b64_char b64 ->
  exists contents,
    concat (map token_of b64) = stream contents
    /\ Forall2 decodes_to contents b64.
Proof.
  induction 1 as [|ch b64 Hch _ (contents & E & HF)].
  - exists []. split; [reflexivity | constructor].
  - destruct (token_of_token _ Hch) as (content & Et & Hc).
    exists (content :: contents). split; [|constructor; assumption].
    cbn [map concat]. rewrite Et, E. reflexivity.
Qed.

Lemma decode_encoded (data : bytes) :
  custom_tokens_to_bytes (concat (map token_of (base64.b64encode data)))
  = Ok data.
Proof.
  destruct (tokens_stream _ (binascii_facts.b2a_base64_chars data))
    as (contents & E & HF).
  unfold base64.b64encode at 1. rewrite E.
  rewrite (custom_tokens_to_bytes_stream _ _ HF).
  apply b64decode_b64encode.
Qed.

(** X6. The encoder is injective: two byte sequences with the same token
    string are equal. *)
Theorem encode_injective (data1 data2 : bytes) :
  bytes_to_custom_tokens data1 = bytes_to_custom_tokens data2 ->
  data1 = data2.
Proof.
  rewrite !bytes_to_custom_tokens_eq. intros [= E].
  pose proof (decode_encoded data1) as H1.
  rewrite E, decode_encoded in H1. congruence.
Qed.

Lemma encode_injective_witness : [x66; x6f] = [x66; x6f].
Proof. apply (encode_injective [x66; x6f] [x66; x6f]). reflexivity. Defined.

Lemma present_length (idx : nat) : idx < 64 -> length (present_of idx) <= 6.
Proof.
  intros H. apply Nat.leb_le. revert idx H.
  apply (below_64 (fun idx => length (present_of idx) <=? 6)).
  vm_compute. reflexivity.
Qed.

Lemma token_of_length (ch : char) :
  b64_char ch -> 2 <= length (token_of ch) <= 8.
Proof.
  intros [->|H]; [simpl; lia|].
  destruct (alphabet_index _ H) as (idx & Hidx & Hlt & _).
  unfold token_of. rewrite (alphabet_not_pad _ H), Hidx.
  cbn [app length]. rewrite length_app. cbn [length].
  pose proof (present_length _ Hlt). lia.
Qed.

Lemma tokens_length (b64 : str) :
  Forall b64_char b64 ->
  2 * length b64 <= length (concat (map token_of b64)) <= 8 * length b64.
Proof.
  induction 1 as [|ch b64 Hch _ IH]; [simpl; lia|].
  cbn [map concat length]. rewrite length_app.
  pose proof (token_of_length _ Hch). lia.
Qed.

(** X7. Size and symbols of the output: the token string of [data] is made of
    the nine reserved symbols only, and with [n = ceil(len(data) / 3) * 4]
    tokens its length lies between [2 * n] and [8 * n]. *)
Theorem encode_output (data : bytes) :
  exists token_str,
    bytes_to_custom_tokens data = Ok token_str
    /\ Forall reserved token_str
    /\ 2 * (ceil_div (length data) 3 * 4) <= length token_str
    /\ length token_str <= 8 * (ceil_div (length data) 3 * 4).
Proof.
  eexists. split; [apply bytes_to_custom_tokens_eq|].
  pose proof (binascii_facts.b2a_base64_chars data) as HF.
  pose proof (tokens_length _ HF) as Hlen.
  unfold base64.b64encode.
  rewrite binascii_facts.b2a_base64_length in Hlen.
  replace (ceil_div (length data) 3 * 4) with (4 * ((length data + 2) / 3))
    by (unfold ceil_div; cbn [Nat.sub]; lia).
  split; [|lia].
  destruct (tokens_stream _ HF) as (contents & -> & Hc).
  exact (stream_reserved _ _ Hc).
Qed.

Lemma b2a_base64_app (a b : bytes) :
  length a mod 3 = 0 ->
  binascii.b2a_base64 (a ++ b)
  = binascii.b2a_base64 a ++ binascii.b2a_base64 b.
Proof.
  induction a as [|x|x y|x y z a IH] using binascii_facts.list_ind3;
    intros H.
  - reflexivity.
  - discriminate.
  - discriminate.
  - cbn [length] in H.
    replace (S (S (S (length a)))) with (length a + 1 * 3) in H by lia.
    rewrite Nat.Div0.mod_add in H.
    cbn [app binascii.b2a_base64]. cbv zeta. rewrite (IH H). reflexivity.
Qed.

(** X8. Encoding by blocks: when the length of [data1] is a multiple of 3,
    the token string of [data1 ++ data2] is the token string of [data1]
    followed by that of [data2]. *)
Theorem encode_app (data1 data2 : bytes) :
  length data1 mod 3 = 0 ->
  bytes_to_custom_tokens (data1 ++ data2)
  = (t1 <- bytes_to_custom_tokens data1 ;;
     t2 <- bytes_to_custom_tokens data2 ;;
     Ok (t1 ++ t2)).
Proof.
  intros H. rewrite !bytes_to_custom_tokens_eq. cbn [bind].
  unfold base64.b64encode. rewrite (b2a_base64_app _ _ H).
  rewrite map_app, concat_app. reflexivity.
Qed.

Lemma encode_app_witness :
  bytes_to_custom_tokens (bytes_of "foo" ++ bytes_of "f")
  = (t1 <- bytes_to_custom_tokens (bytes_of "foo") ;;
     t2 <- bytes_to_custom_tokens (bytes_of "f") ;;
     Ok (t1 ++ t2)).
Proof. apply encode_app. reflexivity. Defined.

Lemma present_bits (idx k : nat) :
  idx < 64 -> k < 6 ->
  contains (present_of idx) (nth k HANGUL_BITS 0%N)
  = N.testbit (N.of_nat idx) (N.of_nat (5 - k)).
Proof.
  intros Hidx Hk. apply Bool.eqb_prop.
  assert (E : forallb (fun k =>
                Bool.eqb (contains (present_of idx) (nth k HANGUL_BITS 0%N))
                         (N.testbit (N.of_nat idx) (N.of_nat (5 - k))))
              (seq 0 6) = true).
  { revert idx Hidx.
    apply (below_64 (fun idx => forallb (fun k =>
             Bool.eqb (contains (present_of idx) (nth k HANGUL_BITS 0%N))
                      (N.testbit (N.of_nat idx) (N.of_nat (5 - k))))
             (seq 0 6))).
    vm_compute. reflexivity. }
  rewrite forallb_forall in E. apply E. apply in_seq. lia.
Qed.

(** X9. What a data token says: for a character at index [idx] of the
    alphabet, the loop body appends START + content + END where the content
    holds entry [k] of [HANGUL_BITS] exactly when bit [5 - k] of [idx] is set,
    and the decoder's index reconstruction on that content gives [idx]
    back. *)
Theorem encode_body_bits (out : list str) (ch : char) (idx : nat) :
  ch <> chr "=" ->
  index BASE64_ALPHABET ch = Some idx ->
  exists content,
    encode_body out ch = Ok (out ++ [token content])
    /\ (forall k, k < 6 ->
        contains content (nth k HANGUL_BITS 0%N)
        = N.testbit (N.of_nat idx) (N.of_nat (5 - k)))
    /\ index_of_content content = N.of_nat idx.
Proof.
  intros Hne Hidx.
  assert (Hlt : idx < 64).
  { destruct (index_lt _ _ _ Hidx) as [H _].
    change (length BASE64_ALPHABET) with 64 in H. exact H. }
  exists (present_of idx). unfold encode_body.
  apply N.eqb_neq in Hne. rewrite Hne, Hidx. split; [reflexivity|].
  split; [intros k Hk; apply present_bits; assumption|].
  apply index_of_content_present, Hlt.
Qed.

Lemma encode_body_bits_witness :
  exists content,
    encode_body [] (chr "Z") = Ok ([] ++ [token content])
    /\ (forall k, k < 6 ->
        contains content (nth k HANGUL_BITS 0%N)
        = N.testbit (N.of_nat 25) (N.of_nat (5 - k)))
    /\ index_of_content content = N.of_nat 25.
Proof.
  apply (encode_body_bits [] (chr "Z") 25).
  - vm_compute. discriminate.
  - reflexivity.
Defined.

(** ** Decoding concatenated token strings *)

Lemma after_data_app (x y : str) :
  In (chr "=") x -> after_data (x ++ y) = after_data x ++ y.
Proof.
  induction x as [|c x IH]; intros Hin; [destruct Hin|].
  cbn [app after_data]. destruct (is_pad c) eqn:E; [reflexivity|].
  destruct Hin as [->|Hin]; [discriminate | apply IH, Hin].
Qed.

Lemma b2a_base64_has_pad (data : bytes) :
  length data mod 3 <> 0 -> In (chr "=") (binascii.b2a_base64 data).
Proof.
  induction data as [|x|x y|x y z data IH] using binascii_facts.list_ind3;
    intros H.
  - exfalso. apply H. reflexivity.
  - cbn [binascii.b2a_base64]. cbv zeta. right; right; left. reflexivity.
  - cbn [binascii.b2a_base64]. cbv zeta. right; right; right; left.
    reflexivity.
  - cbn [length] in H.
    replace (S (S (S (length data)))) with (length data + 1 * 3) in H by lia.
    rewrite Nat.Div0.mod_add in H.
    cbn [binascii.b2a_base64]. cbv zeta. do 4 right. apply IH, H.
Qed.

Lemma b64decode_data_after_padding (u1 u2 : str) (c : char) :
  Forall b64_char u1 -> Forall b64_char (c :: u2) ->
  In (chr "=") u1 -> is_pad c = false ->
  exists be, base64.b64decode (u1 ++ c :: u2) = Raise (binascii_Error be).
Proof.
  intros H1 H2 Hin Hc.
  assert (HF : Forall b64_char (u1 ++ c :: u2))
    by (apply Forall_app; split; assumption).
  pose proof (strict_mode.a2b_base64_accepts _ HF) as Hacc.
  assert (Hpad : forallb is_pad (after_data (u1 ++ c :: u2)) = false).
  { rewrite (after_data_app _ _ Hin), forallb_app. cbn [forallb].
    rewrite Hc. cbn [andb]. apply andb_false_r. }
  unfold strictly_valid, quads_then_padding in Hacc.
  rewrite Hpad, !andb_false_r in Hacc. cbn [andb orb] in Hacc.
  rewrite <- (b64decode_b64_chars _ HF) in Hacc.
  destruct (base64.b64decode (u1 ++ c :: u2)) as [data|e] eqn:E;
    [discriminate|].
  destruct (b64decode_raises _ _ HF E) as (be & -> & _). eauto.
Qed.

(** X10. Concatenated encodings.  When the length of [data1] is a multiple of
    3, the token strings of [data1] and [data2] put end to end decode to
    [data1 ++ data2].  Otherwise, with [data2] not empty, the concatenation is
    rejected by the final Base64 decoding: data follows padding. *)
Theorem decode_concat (data1 data2 : bytes) (t1 t2 : str) :
  bytes_to_custom_tokens data1 = Ok t1 ->
  bytes_to_custom_tokens data2 = Ok t2 ->
  (length data1 mod 3 = 0 ->
   custom_tokens_to_bytes (t1 ++ t2) = Ok (data1 ++ data2))
  /\ (length data1 mod 3 <> 0 -> data2 <> [] ->
      exists be,
        custom_tokens_to_bytes (t1 ++ t2) = Raise (binascii_Error be)).
Proof.
  rewrite !bytes_to_custom_tokens_eq. intros [= <-] [= <-]. split.
  - intros H. rewrite <- concat_app, <- map_app.
    unfold base64.b64encode. rewrite <- (b2a_base64_app _ _ H).
    apply decode_encoded.
  - intros H Hne.
    pose proof (binascii_facts.b2a_base64_chars data1) as HF1.
    pose proof (binascii_facts.b2a_base64_chars data2) as HF2.
    destruct (tokens_stream _ HF1) as (cs1 & E1 & Hc1).
    destruct (tokens_stream _ HF2) as (cs2 & E2 & Hc2).
    unfold base64.b64encode. rewrite E1, E2, <- stream_app.
    rewrite (custom_tokens_to_bytes_stream _ _ (Forall2_app Hc1 Hc2)).
    destruct (binascii.b2a_base64 data2) as [|c u2] eqn:Eu.
    + exfalso. apply Hne.
      pose proof (binascii_facts.b2a_base64_length data2) as Hlen.
      rewrite Eu in Hlen. cbn [length] in Hlen.
      destruct data2 as [|x data2]; [reflexivity|].
      cbn [length] in Hlen.
      replace (S (length data2) + 2) with (1 * 3 + length data2) in Hlen by lia.
      rewrite Nat.div_add_l in Hlen by lia. lia.
    + apply b64decode_data_after_padding; try assumption.
      * apply b2a_base64_has_pad, H.
      * exact (binascii_facts.b2a_base64_head _ _ _ Eu).
Qed.

Lemma decode_concat_witness :
  custom_tokens_to_bytes
    (concat (map token_of (str_of "Zm9v")) ++ concat (map token_of (str_of "Zg==")))
  = Ok (bytes_of "foo" ++ bytes_of "f")
  /\ exists be,
       custom_tokens_to_bytes
         (concat (map token_of (str_of "Zg==")) ++ concat (map token_of (str_of "Zm9v")))
       = Raise (binascii_Error be).
Proof.
  split.
  - refine (proj1 (decode_concat (bytes_of "foo") (bytes_of "f") _ _ _ _) _);
      reflexivity.
  - refine (proj2 (decode_concat (bytes_of "f") (bytes_of "foo") _ _ _ _) _ _);
      try reflexivity; vm_compute; discriminate.
Defined.

(** ** The length of the decoded bytes *)

Lemma data_run_bytes (d : str) :
  Forall (fun c => In c BASE64_ALPHABET) d ->
  forall r quad_pos leftchar bin,
    quad_pos < 4 ->
    exists leftchar' bin' k quad_pos',
      quad_pos' < 4
      /\ quad_pos + length d = 4 * k + quad_pos'
      /\ length bin' + quad_bytes quad_pos
         = length bin + 3 * k + quad_bytes quad_pos'
      /\ binascii.a2b_loop (d ++ r) quad_pos leftchar 0 false bin
         = binascii.a2b_loop r quad_pos' leftchar' 0 false bin'.
Proof.
  induction 1 as [|c d Hc _ IH]; intros r q lc bin Hq.
  - exists lc, bin, 0, q. cbn [app length]. repeat split; lia.
  - destruct (binascii_facts.alphabet_b2a _ Hc) as (v & Hv & ->).
    cbn [app length]. rewrite (binascii_facts.a2b_loop_data _ _ _ _ _ _ Hv).
    destruct q as [|[|[|[|q]]]]; try lia.
    + destruct (IH r 1 v bin ltac:(lia))
        as (lc' & bin' & k & q' & Hq' & Hk & Hlen & ->).
      exists lc', bin', k, q'. cbn [quad_bytes] in *.
      repeat split; try lia.
    + destruct (IH r 2 (N.land v 15)
                  (bin ++ [binascii.uchar
                             (N.lor (N.shiftl lc 2) (N.shiftr v 4))])
                  ltac:(lia))
        as (lc' & bin' & k & q' & Hq' & Hk & Hlen & ->).
      exists lc', bin', k, q'. rewrite length_app in Hlen.
      cbn [quad_bytes length] in *. repeat split; try lia.
    + destruct (IH r 3 (N.land v 3)
                  (bin ++ [binascii.uchar
                             (N.lor (N.shiftl lc 4) (N.shiftr v 2))])
                  ltac:(lia))
        as (lc' & bin' & k & q' & Hq' & Hk & Hlen & ->).
      exists lc', bin', k, q'. rewrite length_app in Hlen.
      cbn [quad_bytes length] in *. repeat split; try lia.
    + destruct (IH r 0 0%N
                  (bin ++ [binascii.uchar (N.lor (N.shiftl lc 6) v)])
                  ltac:(lia))
        as (lc' & bin' & k & q' & Hq' & Hk & Hlen & ->).
      exists lc', bin', (S k), q'. rewrite length_app in Hlen.
      cbn [quad_bytes length] in *. repeat split; try lia.
Qed.

Lemma filter_data_prefix (u : str) :
  forallb is_pad (after_data u) = true ->
  filter (fun c => negb (is_pad c)) u = data_prefix u.
Proof.
  induction u as [|c u IH]; [reflexivity|].
  cbn [after_data data_prefix filter]. destruct (is_pad c) eqn:E; cbn [negb].
  - cbn [forallb]. rewrite E. cbn [andb]. clear.
    induction u as [|x u IH]; [reflexivity|].
    cbn [forallb filter]. intros H. apply andb_true_iff in H.
    destruct H as [Hx Hu]. rewrite Hx. cbn [negb]. apply IH, Hu.
  - intros H. rewrite (IH H). reflexivity.
Qed.

Lemma a2b_base64_length (u : str) (data : bytes) :
  Forall b64_char u ->
  binascii.a2b_base64 u = Ok data ->
  length data = 3 * length (data_prefix u) / 4
  /\ length (data_prefix u) mod 4 <> 1.
Proof.
  intros HF Hok.
  pose proof (strict_mode.data_prefix_alphabet u HF) as Hd.
  pose proof (strict_mode.after_data_head u) as Hhead.
  rewrite (strict_mode.split_at_padding u) in Hok.
  destruct (data_prefix u) as [|c d] eqn:Ed.
  - cbn [app] in Hok. destruct Hhead as [E|(r & E)]; rewrite E in Hok.
    + injection Hok as <-. split; [reflexivity | discriminate].
    + discriminate.
  - inversion Hd as [|? ? Hc Hd']; subst.
    destruct (binascii_facts.alphabet_b2a _ Hc) as (v & Hv & ->).
    unfold binascii.a2b_base64 in Hok. cbn [app] in Hok.
    rewrite (binascii_facts.b2a_not_pad _ Hv) in Hok.
    change (binascii.b2a v :: d ++ after_data u)
      with ((binascii.b2a v :: d) ++ after_data u) in Hok.
    destruct (data_run_bytes (binascii.b2a v :: d) Hd (after_data u)
                0 0%N [] ltac:(lia))
      as (lc' & bin' & k & q' & Hq' & Hk & Hlen & E).
    rewrite E in Hok.
    destruct (a2b_loop_tail _ _ _ _ _ Hhead Hok) as [-> Hq1].
    cbn [quad_bytes length Nat.add] in Hlen, Hk. cbn [length].
    split.
    + destruct q' as [|[|[|[|q']]]]; try lia; cbn [quad_bytes] in Hlen.
      * apply Nat.div_unique with (r := 0); lia.
      * apply Nat.div_unique with (r := 2); lia.
      * apply Nat.div_unique with (r := 1); lia.
    + rewrite Hk, Nat.add_comm, Nat.mul_comm, Nat.Div0.mod_add.
      rewrite Nat.mod_small by exact Hq'. exact Hq1.
Qed.

(** X11. Size of the result: when the decoder returns bytes, the scanned
    tokens are [n] data tokens followed only by padding tokens, [n] is not 1
    more than a multiple of 4, and the result has [floor(3 * n / 4)] bytes. *)
Theorem decoded_length (token_str b64_str : str) (data : bytes) :
  while_loop token_str 0 [] = Ok b64_str ->
  custom_tokens_to_bytes token_str = Ok data ->
  let n := length (filter (fun c => negb (is_pad c)) b64_str) in
  length data = 3 * n / 4
  /\ n mod 4 <> 1
  /\ b64_str = filter (fun c => negb (is_pad c)) b64_str
               ++ repeat (chr "=") (length b64_str - n).
Proof.
  intros Hloop Hok. cbv zeta.
  pose proof (while_loop_b64_chars _ _ Hloop) as HF.
  unfold custom_tokens_to_bytes in Hok. rewrite Hloop in Hok. cbn [bind] in Hok.
  rewrite (b64decode_b64_chars _ HF) in Hok.
  pose proof (strict_mode.a2b_base64_accepts _ HF) as Hacc.
  rewrite Hok in Hacc. cbn [is_ok] in Hacc.
  assert (Hpad : forallb is_pad (after_data b64_str) = true).
  { unfold strictly_valid, quads_then_padding in Hacc.
    destruct (forallb is_pad (after_data b64_str)); [reflexivity|].
    rewrite !andb_false_r in Hacc. discriminate. }
  rewrite (filter_data_prefix _ Hpad).
  destruct (a2b_base64_length _ _ HF Hok) as [Hlen Hmod].
  split; [exact Hlen|]. split; [exact Hmod|].
  rewrite (strict_mode.split_at_padding b64_str) at 1. f_equal.
  pose proof (f_equal (@length N) (strict_mode.split_at_padding b64_str)) as Hl.
  rewrite length_app in Hl.
  replace (length b64_str - length (data_prefix b64_str))
    with (length (after_data b64_str)) by lia.
  revert Hpad. generalize (after_data b64_str). clear.
  induction l as [|c l IH]; [reflexivity|].
  cbn [forallb length repeat]. intros H. apply andb_true_iff in H.
  destruct H as [Hc Hl]. apply N.eqb_eq in Hc. subst c.
  f_equal. apply IH, Hl.
Qed.

Lemma decoded_length_witness :
  length [x66] = 3 * length (filter (fun c => negb (is_pad c)) (str_of "Zg==")) / 4.
Proof.
  refine (proj1 (decoded_length (concat (map token_of (str_of "Zg==")))
                   (str_of "Zg==") [x66] _ _)); reflexivity.
Defined.

(** ** The self-test *)

Lemma bytes_eqb_refl (a : bytes) : bytes_eqb a a = true.
Proof.
  induction a as [|x a IH]; [reflexivity|].
  cbn [bytes_eqb]. rewrite (Byte.byte_dec_lb eq_refl), IH. reflexivity.
Qed.

Lemma run_tests_loop_passes (samples : list (list byte)) :
  forall stdout,
    run_tests_loop samples stdout
    = (stdout
       ++ flat_map
            (fun s =>
               [line_sample s;
                line_token (concat (map token_of (base64.b64encode s)));
                line_back s])
            samples,
       None).
Proof.
  induction samples as [|s samples IH]; intros stdout.
  - cbn [run_tests_loop flat_map]. rewrite app_nil_r. reflexivity.
  - cbn [run_tests_loop flat_map].
    rewrite bytes_to_custom_tokens_eq, decode_encoded, bytes_eqb_refl.
    cbv zeta. rewrite IH, <- app_assoc. reflexivity.
Qed.

(** X12. The self-test passes.  On any list of samples the loop of
    [_run_tests] fails no assertion and lets no exception out; for each sample
    it prints the sample, its token string and the sample again as decoded.
    [_run_tests] itself ends normally, 18 lines printed and then
    "All tests passed.". *)
Theorem run_tests_pass :
  (forall samples stdout,
      run_tests_loop samples stdout
      = (stdout
         ++ flat_map
              (fun s =>
                 [line_sample s;
                  line_token (concat (map token_of (base64.b64encode s)));
                  line_back s])
              samples,
         None))
  /\ snd _run_tests = None
  /\ exists out,
       fst _run_tests = out ++ [line_all_tests_passed] /\ length out = 18.
Proof.
  split; [intros samples stdout; apply run_tests_loop_passes|].
  unfold _run_tests. cbv zeta. rewrite run_tests_loop_passes.
  rewrite bytes_to_custom_tokens_eq, decode_encoded, bytes_eqb_refl.
  split; [reflexivity|]. eexists. split; reflexivity.
Qed.

(** ** The wire format is unambiguous *)



